(** * Visual Sitemap: the client contract, the token store, the device id
      cache, the graph's link filter and the crawl engine.

    The development follows the TypeScript sources of the frontend
    (api/sitemap.ts, App.tsx, stores/tokenStore.ts, utils/fingerprint.ts,
    components/SitemapGraph.tsx).  The crawl engine itself (the Python
    backend) is not among the sources; its frontier and graph builder are
    modelled from the written specification in [Module CrawlEngine]. *)

From Stdlib Require Import ZArith String Ascii List Bool Lia.
From Stdlib Require Import DecimalString PrimFloat.
From stdpp Require Import base decidable option list strings gmap.

Set Warnings "-register-all".

Local Open Scope Z_scope.
Local Open Scope string_scope.

(** ** JavaScript values that cross the HTTP boundary *)

(** A parsed JSON document.  Numbers are modelled by the integers: every
    number the client computes with (depths, page counts, credits) is one;
    a fractional crawl time is only passed through and is left out.  An
    object keeps its own properties in insertion order, one value per
    name, as JSON.parse leaves them. *)
Inductive json : Type :=
| JNull
| JBool (b : bool)
| JNum (n : Z)
| JStr (s : string)
| JArr (items : list json)
| JObj (fields : list (string * json)).

(** A thrown value: an instance of Error (with its name and message) or
    any other value. *)
Inductive thrown : Type :=
| ErrorObj (name message : string)
| NonError (v : json).

(** [new Error(message)] *)
Definition new_Error (message : string) : thrown := ErrorObj "Error" message.

(** ECMAScript ToBoolean on a JSON value. *)
Definition ToBoolean (v : json) : bool :=
  match v with
  | JNull => false
  | JBool b => b
  | JNum n => negb (n =? 0)%Z
  | JStr s => negb (String.eqb s "")
  | JArr _ => true
  | JObj _ => true
  end.

(** Number::toString for an integer. *)
Definition Number_toString (n : Z) : string :=
  NilZero.string_of_int (Z.to_int n).

Fixpoint join (sep : string) (parts : list string) : string :=
  match parts with
  | [] => ""
  | [p] => p
  | p :: rest => p ++ sep ++ join sep rest
  end.

(** ECMAScript ToString on a JSON value; Array.prototype.join turns a
    null element into the empty string. *)
Fixpoint ToString (v : json) : string :=
  match v with
  | JNull => "null"
  | JBool true => "true"
  | JBool false => "false"
  | JNum n => Number_toString n
  | JStr s => s
  | JArr items =>
      join "," (List.map (fun e => match e with JNull => "" | _ => ToString e end) items)
  | JObj _ => "[object Object]"
  end.

(** Own-property lookup in an object's property list. *)
Fixpoint assoc (k : string) (fields : list (string * json)) : option json :=
  match fields with
  | [] => None
  | (k', v) :: rest => if String.eqb k k' then Some v else assoc k rest
  end.

(** [v.key]: reading a property of null throws a TypeError; a missing
    property, or any property of a primitive or an array that is not an
    index, reads as undefined ([Some None]). *)
Definition get_property (v : json) (key : string) : option (option json) :=
  match v with
  | JNull => None
  | JObj fields => Some (assoc key fields)
  | _ => Some None
  end.

(** The message V8 gives the TypeError of [null.detail]. *)
Definition null_detail_message : string :=
  "Cannot read properties of null (reading 'detail')".

(** ** JSON.stringify *)

Definition hex_digit (n : N) : ascii :=
  match n with
  | 0%N => "0" | 1%N => "1" | 2%N => "2" | 3%N => "3" | 4%N => "4"
  | 5%N => "5" | 6%N => "6" | 7%N => "7" | 8%N => "8" | 9%N => "9"
  | 10%N => "a" | 11%N => "b" | 12%N => "c" | 13%N => "d" | 14%N => "e"
  | _ => "f"
  end%char.

(** The double quote character, as a one-character string. *)
Definition dquote : string := String (ascii_of_N 34) "".

(** QuoteJSONString, one code unit at a time. *)
Definition quote_char (a : ascii) : string :=
  let n := N_of_ascii a in
  if (n =? 34)%N then "\" ++ dquote
  else if (n =? 92)%N then "\\"
  else if (n =? 8)%N then "\b"
  else if (n =? 9)%N then "\t"
  else if (n =? 10)%N then "\n"
  else if (n =? 12)%N then "\f"
  else if (n =? 13)%N then "\r"
  else if (n <? 32)%N then
    "\u00" ++ String (hex_digit (n / 16)) (String (hex_digit (n mod 16)) "")
  else String a "".

Fixpoint quote_body (s : string) : string :=
  match s with
  | EmptyString => ""
  | String a rest => quote_char a ++ quote_body rest
  end.

Definition QuoteJSONString (s : string) : string :=
  dquote ++ quote_body s ++ dquote.

Fixpoint JSON_stringify (v : json) : string :=
  match v with
  | JNull => "null"
  | JBool true => "true"
  | JBool false => "false"
  | JNum n => Number_toString n
  | JStr s => QuoteJSONString s
  | JArr items => "[" ++ join "," (List.map JSON_stringify items) ++ "]"
  | JObj fields =>
      "{" ++ join "," (List.map (fun kv => QuoteJSONString (fst kv) ++ ":" ++ JSON_stringify (snd kv)) fields) ++ "}"
  end.

(** ** The data contract of api/sitemap.ts *)

(** [SitemapResult.status] *)
Inductive Status : Type := pending | crawling | completed | failed.

Definition Status_name (s : Status) : string :=
  match s with
  | pending => "pending"
  | crawling => "crawling"
  | completed => "completed"
  | failed => "failed"
  end.

Record PageNode : Type := {
  id : string;
  node_url : string;
  title : option string;
  node_depth : Z;
  outgoing_links : Z;
  incoming_links : Z
}.

Record PageLink : Type := {
  source : string;
  target : string
}.

Record SitemapResult : Type := {
  status : Status;
  root_url : string;
  total_pages : Z;
  total_links : Z;
  nodes : list PageNode;
  links : list PageLink;
  crawl_time_seconds : Z;
  error : option string
}.

Record CrawlRequest : Type := {
  url : string;
  max_depth : option Z;
  max_pages : option Z
}.

(** The JSON documents that are values of these interfaces. *)
Definition PageNode_json (n : PageNode) : json :=
  JObj [("id", JStr (id n));
        ("url", JStr (node_url n));
        ("title", match title n with Some s => JStr s | None => JNull end);
        ("depth", JNum (node_depth n));
        ("outgoing_links", JNum (outgoing_links n));
        ("incoming_links", JNum (incoming_links n))].

Definition PageLink_json (l : PageLink) : json :=
  JObj [("source", JStr (source l)); ("target", JStr (target l))].

Definition SitemapResult_json (r : SitemapResult) : json :=
  JObj ([("status", JStr (Status_name (status r)));
         ("root_url", JStr (root_url r));
         ("total_pages", JNum (total_pages r));
         ("total_links", JNum (total_links r));
         ("nodes", JArr (List.map PageNode_json (nodes r)));
         ("links", JArr (List.map PageLink_json (links r)));
         ("crawl_time_seconds", JNum (crawl_time_seconds r))]
        ++ match error r with Some e => [("error", JStr e)] | None => [] end).

(** What JSON.stringify sees of a request: an optional field that is
    undefined is left out. *)
Definition CrawlRequest_json (request : CrawlRequest) : json :=
  JObj ([("url", JStr (url request))]
        ++ match max_depth request with Some d => [("max_depth", JNum d)] | None => [] end
        ++ match max_pages request with Some p => [("max_pages", JNum p)] | None => [] end).

(** Reading a JSON document back at the interface types: a property is
    looked up by name, and a document that lacks a required property, or
    holds a value of another kind in it, is not of the interface. *)
Definition field (key : string) (j : json) : option json :=
  match j with
  | JObj fields => assoc key fields
  | _ => None
  end.

Definition field_names (j : json) : list string :=
  match j with
  | JObj fields => List.map fst fields
  | _ => []
  end.

Definition as_string (j : json) : option string :=
  match j with JStr s => Some s | _ => None end.

Definition as_number (j : json) : option Z :=
  match j with JNum n => Some n | _ => None end.

Definition as_array (j : json) : option (list json) :=
  match j with JArr items => Some items | _ => None end.

Fixpoint all_as {A : Type} (f : json -> option A) (items : list json) : option (list A) :=
  match items with
  | [] => Some []
  | j :: rest =>
      match f j, all_as f rest with
      | Some a, Some others => Some (a :: others)
      | _, _ => None
      end
  end.

Definition Status_of_name (s : string) : option Status :=
  if String.eqb s "pending" then Some pending
  else if String.eqb s "crawling" then Some crawling
  else if String.eqb s "completed" then Some completed
  else if String.eqb s "failed" then Some failed
  else None.

Definition as_PageNode (j : json) : option PageNode :=
  i ← field "id" j ≫= as_string;
  u ← field "url" j ≫= as_string;
  t ← match field "title" j with
      | Some (JStr s) => Some (Some s)
      | Some JNull => Some None
      | _ => None
      end;
  d ← field "depth" j ≫= as_number;
  o ← field "outgoing_links" j ≫= as_number;
  n ← field "incoming_links" j ≫= as_number;
  Some {| id := i; node_url := u; title := t; node_depth := d;
          outgoing_links := o; incoming_links := n |}.

Definition as_PageLink (j : json) : option PageLink :=
  s ← field "source" j ≫= as_string;
  t ← field "target" j ≫= as_string;
  Some {| source := s; target := t |}.

(** An optional string property: absent, or a string. *)
Definition optional_string (key : string) (j : json) : option (option string) :=
  match field key j with
  | None => Some None
  | Some (JStr e) => Some (Some e)
  | Some _ => None
  end.

Definition as_SitemapResult (j : json) : option SitemapResult :=
  st ← (field "status" j ≫= as_string) ≫= Status_of_name;
  r ← field "root_url" j ≫= as_string;
  tp ← field "total_pages" j ≫= as_number;
  tl ← field "total_links" j ≫= as_number;
  ns ← (field "nodes" j ≫= as_array) ≫= all_as as_PageNode;
  ls ← (field "links" j ≫= as_array) ≫= all_as as_PageLink;
  ct ← field "crawl_time_seconds" j ≫= as_number;
  e ← optional_string "error" j;
  Some {| status := st; root_url := r; total_pages := tp; total_links := tl;
          nodes := ns; links := ls; crawl_time_seconds := ct; error := e |}.

(** ** Promises and fetch: a small interaction monad *)

Record RequestInit : Type := {
  method : string;
  headers : list (string * string);
  body : string
}.

(** What the client reads of a Response: [ok], and what [json()] settles
    to (the reason of its rejection, or the parsed body). *)
Record Response : Type := {
  ok : bool;
  json_body : thrown + json
}.

(** How the promise returned by [fetch] settles. *)
Inductive fetch_outcome : Type :=
| FetchRejected (reason : thrown)
| FetchResponse (response : Response).

(** An asynchronous computation: it returns, throws (its promise is
    rejected), or calls [fetch] and continues with how that call settles. *)
Inductive io (A : Type) : Type :=
| Ret (a : A)
| Throw (e : thrown)
| Fetch (input : string) (init : RequestInit) (k : fetch_outcome -> io A).

Arguments Ret {A} a.
Arguments Throw {A} e.
Arguments Fetch {A} input init k.

Fixpoint bind {A B : Type} (m : io A) (f : A -> io B) : io B :=
  match m with
  | Ret a => f a
  | Throw e => Throw e
  | Fetch input init k => Fetch input init (fun o => bind (k o) f)
  end.

(** [try { m } catch (err) { h err }] *)
Fixpoint try_catch {A : Type} (m : io A) (h : thrown -> io A) : io A :=
  match m with
  | Ret a => Ret a
  | Throw e => h e
  | Fetch input init k => Fetch input init (fun o => try_catch (k o) h)
  end.

#[global] Instance io_ret : MRet io := fun A a => Ret a.
#[global] Instance io_bind : MBind io := fun A B f m => bind m f.

(** How a computation ends. *)
Inductive outcome (A : Type) : Type :=
| Returned (a : A)
| Raised (e : thrown).

Arguments Returned {A} a.
Arguments Raised {A} e.

(** The network: how each [fetch] call settles. *)
Definition network : Type := string -> RequestInit -> fetch_outcome.

(** Running a computation against a network: its outcome, and the
    requests it issued, in order. *)
Fixpoint run {A : Type} (net : network) (m : io A)
  : outcome A * list (string * RequestInit) :=
  match m with
  | Ret a => (Returned a, [])
  | Throw e => (Raised e, [])
  | Fetch input init k =>
      let (r, trace) := run net (k (net input init)) in
      (r, (input, init) :: trace)
  end.

(** ** crawlSitemap (api/sitemap.ts) *)

Section Client.

(** [import.meta.env.VITE_API_URL], undefined when not configured. *)
Variable VITE_API_URL : option string.

Definition API_BASE : string :=
  match VITE_API_URL with
  | Some s => if String.eqb s "" then "" else s
  | None => ""
  end.

Definition crawl_endpoint : string := API_BASE ++ "/api/v1/sitemap/crawl/sync".

Definition crawl_init (request : CrawlRequest) : RequestInit :=
  {| method := "POST";
     headers := [("Content-Type", "application/json")];
     body := JSON_stringify (CrawlRequest_json request) |}.

(** [error.detail || 'Crawl failed'] followed by [new Error(...)]. *)
Definition failure_of (error : json) : thrown :=
  match get_property error "detail" with
  | None => ErrorObj "TypeError" null_detail_message
  | Some detail =>
      let chosen :=
        match detail with
        | Some d => if ToBoolean d then d else JStr "Crawl failed"
        | None => JStr "Crawl failed"
        end in
      new_Error (ToString chosen)
  end.

Definition crawlSitemap (request : CrawlRequest) : io json :=
  Fetch crawl_endpoint (crawl_init request) (fun settled =>
    match settled with
    | FetchRejected reason => Throw reason
    | FetchResponse response =>
        if negb (ok response) then
          let error :=
            match json_body response with
            | inl _ => JObj [("detail", JStr "Unknown error")]
            | inr parsed => parsed
            end in
          Throw (failure_of error)
        else
          match json_body response with
          | inl reason => Throw reason
          | inr parsed => Ret parsed
          end
    end).

End Client.

(** ** The scanner page (App.tsx) *)

(** [s.startsWith(p)] *)
Definition startsWith (s p : string) : bool := String.prefix p s.

(** White space that [String.prototype.trim] removes, among the ASCII
    characters. *)
Definition is_space (a : ascii) : bool :=
  let n := N_of_ascii a in
  ((9 <=? n) && (n <=? 13) || (n =? 32))%N.

Fixpoint trimStart (s : string) : string :=
  match s with
  | String a rest => if is_space a then trimStart rest else s
  | EmptyString => ""
  end.

Fixpoint trimEnd (s : string) : string :=
  match s with
  | EmptyString => ""
  | String a rest =>
      match trimEnd rest with
      | EmptyString => if is_space a then "" else String a ""
      | kept => String a kept
      end
  end.

Definition trim (s : string) : string := trimEnd (trimStart s).

Record AppState : Type := {
  st_url : string;
  st_depth : Z;
  st_maxPages : Z;
  st_loading : bool;
  st_error : option string;
  st_result : option json;
  st_selectedNode : option PageNode
}.

(** The state of the first render: [useState('')], [useState(3)],
    [useState(100)], ... *)
Definition initial_state : AppState :=
  {| st_url := ""; st_depth := 3; st_maxPages := 100; st_loading := false;
     st_error := None; st_result := None; st_selectedNode := None |}.

(** The <option> values of the two <select> elements. *)
Definition depth_options : list Z := [1; 2; 3; 4; 5].
Definition maxPages_options : list Z := [25; 50; 100; 200; 500].

Definition setUrl (v : string) (st : AppState) : AppState :=
  {| st_url := v; st_depth := st_depth st; st_maxPages := st_maxPages st;
     st_loading := st_loading st; st_error := st_error st;
     st_result := st_result st; st_selectedNode := st_selectedNode st |}.

Definition setDepth (d : Z) (st : AppState) : AppState :=
  {| st_url := st_url st; st_depth := d; st_maxPages := st_maxPages st;
     st_loading := st_loading st; st_error := st_error st;
     st_result := st_result st; st_selectedNode := st_selectedNode st |}.

Definition setMaxPages (p : Z) (st : AppState) : AppState :=
  {| st_url := st_url st; st_depth := st_depth st; st_maxPages := p;
     st_loading := st_loading st; st_error := st_error st;
     st_result := st_result st; st_selectedNode := st_selectedNode st |}.

Definition setLoading (b : bool) (st : AppState) : AppState :=
  {| st_url := st_url st; st_depth := st_depth st; st_maxPages := st_maxPages st;
     st_loading := b; st_error := st_error st;
     st_result := st_result st; st_selectedNode := st_selectedNode st |}.

Definition setError (e : option string) (st : AppState) : AppState :=
  {| st_url := st_url st; st_depth := st_depth st; st_maxPages := st_maxPages st;
     st_loading := st_loading st; st_error := e;
     st_result := st_result st; st_selectedNode := st_selectedNode st |}.

Definition setResult (r : option json) (st : AppState) : AppState :=
  {| st_url := st_url st; st_depth := st_depth st; st_maxPages := st_maxPages st;
     st_loading := st_loading st; st_error := st_error st;
     st_result := r; st_selectedNode := st_selectedNode st |}.

Definition setSelectedNode (n : option PageNode) (st : AppState) : AppState :=
  {| st_url := st_url st; st_depth := st_depth st; st_maxPages := st_maxPages st;
     st_loading := st_loading st; st_error := st_error st;
     st_result := st_result st; st_selectedNode := n |}.

(** A <select> reports one of its options: the change handler receives
    the value of the option chosen, here by its position. *)
Definition onDepthChange (choice : nat) (st : AppState) : AppState :=
  match depth_options !! choice with
  | Some d => setDepth d st
  | None => st
  end.

Definition onMaxPagesChange (choice : nat) (st : AppState) : AppState :=
  match maxPages_options !! choice with
  | Some p => setMaxPages p st
  | None => st
  end.

Definition handleReset (st : AppState) : AppState :=
  setUrl "" (setError None (setSelectedNode None (setResult None st))).

Section Scanner.

Variable VITE_API_URL : option string.

(** [new URL(s).toString()]: the serialised URL, or [None] when the
    constructor throws. *)
Variable URL_parse : string -> option string.

(** The translation function of react-i18next. *)
Variable t : string -> string.

(** The string given to [new URL]. *)
Definition scan_candidate (input : string) : string :=
  if startsWith input "http" then input else "https://" ++ input.

Definition scan_request (href : string) (st : AppState) : CrawlRequest :=
  {| url := href; max_depth := Some (st_depth st); max_pages := Some (st_maxPages st) |}.

Definition handleScan (st : AppState) : io AppState :=
  match URL_parse (scan_candidate (st_url st)) with
  | None => Ret (setError (Some (t "error.invalidUrl")) st)
  | Some parsedUrl =>
      let st1 := setSelectedNode None (setResult None (setError None (setLoading true st))) in
      st2 ← try_catch
              (data ← crawlSitemap VITE_API_URL (scan_request parsedUrl st);
               Ret (setResult (Some data) st1))
              (fun err =>
                 Ret (setError (Some (match err with
                                      | ErrorObj _ message => message
                                      | NonError _ => t "error.crawlFailed"
                                      end)) st1));
      Ret (setLoading false st2)
  end.

(** What the user can do to the page, and what each does to its state. *)
Inductive user_step : AppState -> AppState -> Prop :=
| type_url v st : user_step st (setUrl v st)
| choose_depth i st : user_step st (onDepthChange i st)
| choose_maxPages i st : user_step st (onMaxPagesChange i st)
| scan net st st' trace :
    run net (handleScan st) = (Returned st', trace) -> user_step st st'
| select_node n st : user_step st (setSelectedNode n st)
| reset st : user_step st (handleReset st).

End Scanner.

(** The reading of the input that trims before looking for the scheme:
    the string is prefixed exactly when the trimmed input does not start
    with http. *)
Definition trimmed_candidate (input : string) : string :=
  if startsWith (trim input) "http" then input else "https://" ++ input.

(** ** The token store (stores/tokenStore.ts) *)

Module TokenStore.

(** The counts are taken as whole numbers here. *)
Record TokenInfo : Type := {
  token_value : string;
  remaining_generations : Z;
  total_generations : Z;
  expires_at : string;
  product_sku : string
}.

Record TokenState : Type := { token : option TokenInfo }.

Definition initial : TokenState := {| token := None |}.

Definition setToken (tok : option TokenInfo) (s : TokenState) : TokenState :=
  {| token := tok |}.

Definition decrementCredits (s : TokenState) : TokenState :=
  match token s with
  | Some current =>
      if (remaining_generations current >? 0)%Z then
        {| token := Some {| token_value := token_value current;
                            remaining_generations := remaining_generations current - 1;
                            total_generations := total_generations current;
                            expires_at := expires_at current;
                            product_sku := product_sku current |} |}
      else s
  | None => s
  end.

Definition clearToken (s : TokenState) : TokenState := {| token := None |}.

Section Clock.

(** The time value of [new Date(s)] in milliseconds; [None] for an
    Invalid Date, which compares false with everything. *)
Variable Date_parse : string -> option Z.

(** [new Date(expires_at) < new Date()] at the time [now]. *)
Definition expired (now : Z) (tok : TokenInfo) : bool :=
  match Date_parse (expires_at tok) with
  | Some at_ms => (at_ms <? now)%Z
  | None => false
  end.

Definition hasCredits (now : Z) (s : TokenState) : bool :=
  match token s with
  | None => false
  | Some tok =>
      if expired now tok then false
      else (remaining_generations tok >? 0)%Z
  end.

End Clock.

End TokenStore.

(** ** The token store, its counts as JavaScript numbers *)

Module TokenStoreNumber.

(** [remaining_generations] and [total_generations] are of the
    TypeScript type number: IEEE 754 doubles, among them fractions,
    negative numbers and NaN.  [Module TokenStore] above takes the counts
    as whole numbers; here they are the doubles themselves, [> 0] is the
    comparison of doubles (false on NaN) and [- 1] their subtraction
    (rounded to the nearest double). *)
Record TokenInfo : Type := {
  token_value : string;
  remaining_generations : float;
  total_generations : float;
  expires_at : string;
  product_sku : string
}.

Record TokenState : Type := { token : option TokenInfo }.

Definition initial : TokenState := {| token := None |}.

Definition setToken (tok : option TokenInfo) (s : TokenState) : TokenState :=
  {| token := tok |}.

Definition decrementCredits (s : TokenState) : TokenState :=
  match token s with
  | Some current =>
      if PrimFloat.ltb 0 (remaining_generations current) then
        {| token := Some {| token_value := token_value current;
                            remaining_generations :=
                              PrimFloat.sub (remaining_generations current) 1;
                            total_generations := total_generations current;
                            expires_at := expires_at current;
                            product_sku := product_sku current |} |}
      else s
  | None => s
  end.

Definition clearToken (s : TokenState) : TokenState := {| token := None |}.

Section Clock.

(** The time value of [new Date(s)] in milliseconds; [None] for an
    Invalid Date, whose time value is NaN. *)
Variable Date_parse : string -> option Z.

(** The time value of [new Date()]. *)
Variable now : Z.

Definition hasCredits (s : TokenState) : bool :=
  match token s with
  | None => false
  | Some tok =>
      if match Date_parse (expires_at tok) with
         | Some at_ms => (at_ms <? now)%Z
         | None => false
         end
      then false
      else PrimFloat.ltb 0 (remaining_generations tok)
  end.

End Clock.

End TokenStoreNumber.

(** ** The device id (utils/fingerprint.ts) *)

Module Fingerprint.

(** The module variable and the browser's localStorage. *)
Record Session : Type := {
  cachedDeviceId : option string;
  localStorage : gmap string string
}.

Definition fresh (storage : gmap string string) : Session :=
  {| cachedDeviceId := None; localStorage := storage |}.

(** What one call finds outside of the session: whether
    [FingerprintJS.load()] and [fp.get()] succeed, and the digits
    [Math.random().toString(36).substring(2, 15)] yields. *)
Record World : Type := {
  visitorId : option string;
  random_digits : string
}.

(** Truthiness of a string or null. *)
Definition truthy (s : option string) : bool :=
  match s with
  | Some v => negb (String.eqb v "")
  | None => false
  end.

Definition getDeviceId (w : World) (s : Session) : string * Session :=
  if truthy (cachedDeviceId s) then (default "" (cachedDeviceId s), s)
  else
    match visitorId w with
    | Some v => (v, {| cachedDeviceId := Some v; localStorage := localStorage s |})
    | None =>
        let stored := localStorage s !! "device_id" in
        if truthy stored then
          (default "" stored,
           {| cachedDeviceId := stored; localStorage := localStorage s |})
        else
          let randomId := "fallback_" ++ random_digits w in
          (randomId,
           {| cachedDeviceId := Some randomId;
              localStorage := <["device_id" := randomId]> (localStorage s) |})
    end.

(** A sequence of calls, one after the other: the ids they return and
    the session they leave. *)
Fixpoint calls (ws : list World) (s : Session) : list string * Session :=
  match ws with
  | [] => ([], s)
  | w :: rest =>
      let (d, s1) := getDeviceId w s in
      let (ds, s2) := calls rest s1 in
      (d :: ds, s2)
  end.

End Fingerprint.

(** ** Calls of getDeviceId that overlap (utils/fingerprint.ts) *)

Module FingerprintAsync.
Import Fingerprint.

Local Open Scope list_scope.

(** getDeviceId is an async function.  A call that finds no cached id is
    suspended at [await FingerprintJS.load()] and again at
    [await fp.get()], and other calls of the page run in between; what
    lies between two suspension points runs without interruption. *)
Inductive suspended : Type :=
| AwaitLoad
| AwaitGet.

(** The page: the module variable and localStorage, the calls that are
    suspended, and the ids returned so far, in the order in which the
    calls returned. *)
Record Page : Type := {
  session : Session;
  waiting : list suspended;
  returned : list string
}.

Definition opened (s : Session) : Page :=
  {| session := s; waiting := []; returned := [] |}.

(** What happens on the page: getDeviceId is called; the load of the
    suspended call at place [c] resolves; its get resolves with a visitor
    id; or its load or get rejects, in which case [Math.random] yields the
    given digits, should the catch block come to use them. *)
Inductive event : Type :=
| Call
| LoadResolves (c : nat)
| GetResolves (c : nat) (visitor : string)
| Rejects (c : nat) (digits : string).

(** The catch block. *)
Definition catch_block (digits : string) (s : Session) : string * Session :=
  let stored := localStorage s !! "device_id" in
  if truthy stored then
    (default "" stored,
     {| cachedDeviceId := stored; localStorage := localStorage s |})
  else
    let randomId := ("fallback_" ++ digits)%string in
    (randomId,
     {| cachedDeviceId := Some randomId;
        localStorage := <["device_id" := randomId]> (localStorage s) |}).

Definition occur (e : event) (p : Page) : Page :=
  match e with
  | Call =>
      if truthy (cachedDeviceId (session p)) then
        {| session := session p; waiting := waiting p;
           returned := returned p ++ [default "" (cachedDeviceId (session p))] |}
      else
        {| session := session p; waiting := waiting p ++ [AwaitLoad];
           returned := returned p |}
  | LoadResolves c =>
      match waiting p !! c with
      | Some AwaitLoad =>
          {| session := session p; waiting := <[c := AwaitGet]> (waiting p);
             returned := returned p |}
      | _ => p
      end
  | GetResolves c visitor =>
      match waiting p !! c with
      | Some AwaitGet =>
          {| session := {| cachedDeviceId := Some visitor;
                           localStorage := localStorage (session p) |};
             waiting := delete c (waiting p);
             returned := returned p ++ [visitor] |}
      | _ => p
      end
  | Rejects c digits =>
      match waiting p !! c with
      | Some _ =>
          let (d, s') := catch_block digits (session p) in
          {| session := s'; waiting := delete c (waiting p);
             returned := returned p ++ [d] |}
      | None => p
      end
  end.

Definition occurs (es : list event) (p : Page) : Page :=
  foldl (fun acc e => occur e acc) p es.

(** A call that runs alone, from the call to its return, in a world
    that decides how fingerprinting goes. *)
Definition alone (w : World) : list event :=
  Call :: match visitorId w with
          | Some v => [LoadResolves 0; GetResolves 0 v]
          | None => [Rejects 0 (random_digits w)]
          end.

(** Calls one after the other: each returns before the next is made. *)
Definition in_turn (ws : list World) : list event :=
  concat (List.map alone ws).

End FingerprintAsync.

(** ** The link filter of the graph (components/SitemapGraph.tsx) *)

Module Graph.

(** [new Map(d3Nodes.map((n) => [n.id, n]))]: a later entry replaces an
    earlier one with the same key. *)
Definition nodeMap (d3Nodes : list PageNode) : gmap string PageNode :=
  foldl (fun m n => <[id n := n]> m) ∅ d3Nodes.

(** [m.has(k)] *)
Definition has (m : gmap string PageNode) (k : string) : bool :=
  bool_decide (is_Some (m !! k)).

Definition d3Links (nodes : list PageNode) (links : list PageLink) : list PageLink :=
  let d3Nodes := List.map (fun n => n) nodes in
  let m := nodeMap d3Nodes in
  List.map (fun l => {| source := source l; target := target l |})
    (List.filter (fun l => has m (source l) && has m (target l)) links).

(** What the effect gives to [d3.forceSimulation] and [d3.forceLink]:
    nothing when the svg is not mounted or there are no nodes. *)
Definition simulation_input (svg_mounted : bool) (nodes : list PageNode)
  (links : list PageLink) : option (list PageNode * list PageLink) :=
  if negb svg_mounted || (length nodes =? 0)%nat then None
  else Some (List.map (fun n => n) nodes, d3Links nodes links).

End Graph.

(** ** The crawl engine *)

Module CrawlEngine.

Local Open Scope list_scope.

(** Modelled from the spec: the crawl engine (URL frontier, graph
    builder, job state machine and result assembler, sections 3 to 5 of
    the specification).  The backend that implements it is not among the
    sources.  URL normalisation, the crawl scope, the fetch capability
    and the depth given to the node of a cross-origin target are
    parameters. *)
Section Engine.

(** NormalizedURL: the canonical form used as the dedup key. *)
Variable normalize : string -> string.

(** Scope: whether a normalized URL has the root's origin. *)
Variable in_scope : string -> bool.

(** The stable identifier derived from a normalized URL. *)
Variable node_id : string -> string.

(** Whether the root URL can be parsed and has a supported scheme. *)
Variable parseable : string -> bool.

(** The depth given to the node of a cross-origin target that is found on
    a page of the given depth.  Section 4.4 leaves it to the
    implementation and names that depth plus one as one acceptable
    choice. *)
Variable external_depth : nat -> nat.

(** *** URL frontier (section 4.1) *)

(** Modelled from the spec: the frontier.  Accepting a URL marks it
    visited immediately, so the visited set holds every admitted URL,
    queued or fetched. *)
Record Frontier : Type := {
  visited : gset string;
  queue : list (string * nat)
}.

Definition empty_frontier : Frontier := {| visited := ∅; queue := [] |}.

Inductive verdict : Type :=
| Accepted
| Duplicate
| TooDeep
| BudgetReached
| OutOfScope.

(** Modelled from the spec: [enqueue(url, depth)] with its four
    rejection rules, in the order the specification lists them. *)
Definition enqueue (max_depth max_pages : nat) (url : string) (depth : nat)
  (f : Frontier) : verdict * Frontier :=
  let key := normalize url in
  if bool_decide (key ∈ visited f) then (Duplicate, f)
  else if (max_depth <? depth)%nat then (TooDeep, f)
  else if (max_pages <=? size (visited f))%nat then (BudgetReached, f)
  else if negb (in_scope key) then (OutOfScope, f)
  else (Accepted, {| visited := {[key]} ∪ visited f;
                     queue := queue f ++ [(url, depth)] |}).

(** *** Graph builder (section 4.4) *)

Record NodeData : Type := {
  nd_url : string;
  nd_title : option string;
  nd_depth : nat
}.

(** Modelled from the spec: the graph builder's stores.  Nodes are
    indexed by their normalized URL and kept in creation order; edges are
    ordered pairs of normalized URLs; the two degree maps are updated as
    edges are added; a requested URL that was redirected is kept as an
    alias of the URL it led to (section 4.2). *)
Record GraphStore : Type := {
  g_nodes : list (string * NodeData);
  g_edges : list (string * string);
  g_out : gmap string nat;
  g_in : gmap string nat;
  g_alias : gmap string string
}.

Definition empty_graph : GraphStore :=
  {| g_nodes := []; g_edges := []; g_out := ∅; g_in := ∅; g_alias := ∅ |}.

Definition node_keys (g : GraphStore) : list string := (g_nodes g).*1.

Definition has_node (key : string) (g : GraphStore) : bool :=
  bool_decide (key ∈ node_keys g).

(** The node stored for a normalized URL. *)
Fixpoint find_node (key : string) (ns : list (string * NodeData)) : option NodeData :=
  match ns with
  | [] => None
  | (k, nd) :: rest => if String.eqb key k then Some nd else find_node key rest
  end.

(** Modelled from the spec: [addNode(url, depth, title)], idempotent per
    normalized URL; the first call wins for depth and title. *)
Definition addNode (url : string) (depth : nat) (title : option string)
  (g : GraphStore) : GraphStore :=
  let key := normalize url in
  if has_node key g then g
  else {| g_nodes := g_nodes g ++ [(key, {| nd_url := url; nd_title := title; nd_depth := depth |})];
          g_edges := g_edges g; g_out := g_out g; g_in := g_in g;
          g_alias := g_alias g |}.

Definition bump (key : string) (m : gmap string nat) : gmap string nat :=
  <[key := S (default 0%nat (m !! key))]> m.

(** Modelled from the spec: [addEdge(sourceURL, targetURL)], idempotent
    per ordered pair, counting the new edge at both ends. *)
Definition addEdge (sourceURL targetURL : string) (g : GraphStore) : GraphStore :=
  let e := (normalize sourceURL, normalize targetURL) in
  if bool_decide (e ∈ g_edges g) then g
  else {| g_nodes := g_nodes g; g_edges := g_edges g ++ [e];
          g_out := bump (fst e) (g_out g); g_in := bump (snd e) (g_in g);
          g_alias := g_alias g |}.

(** Modelled from the spec: the requested URL of a redirected fetch is an
    alias that resolves to the node of the final URL. *)
Definition addAlias (requestedURL finalURL : string) (g : GraphStore) : GraphStore :=
  let a := normalize requestedURL in
  let k := normalize finalURL in
  if String.eqb a k then g
  else {| g_nodes := g_nodes g; g_edges := g_edges g;
          g_out := g_out g; g_in := g_in g;
          g_alias := <[a := k]> (g_alias g) |}.

Definition resolve (g : GraphStore) (key : string) : string :=
  default key (g_alias g !! key).

(** The calls made on a graph builder. *)
Inductive builder_call : Type :=
| AddNode (url : string) (depth : nat) (title : option string)
| AddEdge (sourceURL targetURL : string)
| AddAlias (requestedURL finalURL : string).

Definition call (c : builder_call) (g : GraphStore) : GraphStore :=
  match c with
  | AddNode u d t => addNode u d t g
  | AddEdge s t => addEdge s t g
  | AddAlias a u => addAlias a u g
  end.

(** The calls applied one after the other, each atomically. *)
Definition build (cs : list builder_call) (g : GraphStore) : GraphStore :=
  foldl (fun acc c => call c acc) g cs.

(** The depths at which a normalized URL is reached by a sequence of
    calls, in the order of the calls. *)
Fixpoint discoveries (key : string) (cs : list builder_call) : list nat :=
  match cs with
  | [] => []
  | AddNode u d _ :: rest =>
      if String.eqb (normalize u) key then d :: discoveries key rest
      else discoveries key rest
  | _ :: rest => discoveries key rest
  end.

(** *** Fetching and workers (sections 4.2, 4.3 and 5) *)

(** What [fetch] followed by [extractLinks] yields for a page: a failure
    (time-out, network failure), or the final URL after redirects, the
    title and the links, resolved against the final URL. *)
Inductive fetched : Type :=
| FetchFailed
| Page (finalURL : string) (title : option string) (links : list string).

(** A worker of the pool: blocked on the fetch of a page, or feeding the
    links extracted from it to the graph builder and the frontier. *)
Inductive worker : Type :=
| Fetching (url : string) (depth : nat)
| Expanding (url : string) (depth : nat) (links : list string).

(** *** The job (sections 3 and 4.5) *)

Record Job : Type := {
  j_status : Status;
  j_root : string;
  j_max_depth : nat;
  j_max_pages : nat;
  j_pool : nat;
  j_frontier : Frontier;
  j_graph : GraphStore;
  j_workers : list worker;
  j_error : option string
}.

Definition new_job (root : string) (max_depth max_pages pool : nat) : Job :=
  {| j_status := pending; j_root := root; j_max_depth := max_depth;
     j_max_pages := max_pages; j_pool := pool; j_frontier := empty_frontier;
     j_graph := empty_graph; j_workers := []; j_error := None |}.

Definition with_state (j : Job) (s : Status) (f : Frontier) (g : GraphStore)
  (ws : list worker) (e : option string) : Job :=
  {| j_status := s; j_root := j_root j; j_max_depth := j_max_depth j;
     j_max_pages := j_max_pages j; j_pool := j_pool j; j_frontier := f;
     j_graph := g; j_workers := ws; j_error := e |}.

(** Modelled from the spec: pending to crawling, atomically with seeding
    the frontier with the root; an unparseable root fails the job. *)
Definition start (j : Job) : Job :=
  if parseable (j_root j) then
    with_state j crawling
      (snd (enqueue (j_max_depth j) (j_max_pages j) (j_root j) 0 (j_frontier j)))
      (j_graph j) (j_workers j) None
  else with_state j failed (j_frontier j) (j_graph j) [] (Some "InvalidRoot").

(** Modelled from the spec: a free worker takes the next URL of the
    frontier, in first-in first-out order. *)
Definition dispatch (j : Job) : option Job :=
  match queue (j_frontier j) with
  | (u, d) :: rest =>
      Some (with_state j (j_status j)
              {| visited := visited (j_frontier j); queue := rest |}
              (j_graph j) (j_workers j ++ [Fetching u d]) (j_error j))
  | [] => None
  end.

(** Modelled from the spec: a fetch settles.  A page becomes a node at
    the depth the frontier admitted it at, keyed by the final URL, of
    which the requested URL becomes an alias; a failed page is a node
    with no outgoing links; a failed root fails the job. *)
Definition settle (u : string) (d : nat) (r : fetched) (others : list worker)
  (j : Job) : Job :=
  match r with
  | Page finalURL title links =>
      with_state j (j_status j) (j_frontier j)
        (addAlias u finalURL (addNode finalURL d title (j_graph j)))
        (others ++ [Expanding finalURL d links]) (j_error j)
  | FetchFailed =>
      match d with
      | O => with_state j failed (j_frontier j) (j_graph j) [] (Some "UnreachableRoot")
      | S _ =>
          with_state j (j_status j) (j_frontier j) (addNode u d None (j_graph j))
            others (j_error j)
      end
  end.

(** Modelled from the spec: one extracted link is fed to the frontier and
    to the graph builder.  A link inside the scope is offered to the
    frontier and recorded as an edge when its target is admitted, now or
    before; a cross-origin target still produces a node and an edge, and
    is never enqueued. *)
Definition feed (u : string) (d : nat) (l : string) (f : Frontier)
  (g : GraphStore) (max_depth max_pages : nat) : Frontier * GraphStore :=
  if in_scope (normalize l) then
    match enqueue max_depth max_pages l (S d) f with
    | (Accepted, f') => (f', addEdge u l g)
    | (Duplicate, f') => (f', addEdge u l g)
    | (_, f') => (f', g)
    end
  else (f, addEdge u l (addNode l (external_depth d) None g)).

(** Modelled from the spec: the wall-clock budget runs out (section 5).
    Nothing more is dispatched and the fetches in flight are dropped; the
    job is completed with the graph built so far, or failed when no page
    was ever fetched. *)
Definition timeout (j : Job) : Job :=
  match g_nodes (j_graph j) with
  | [] => with_state j failed (j_frontier j) (j_graph j) [] (Some "OverallTimeout")
  | _ :: _ => with_state j completed (j_frontier j) (j_graph j) [] (j_error j)
  end.

(** The steps of a job: each is one atomic operation of one worker or of
    the state machine, so a run of several workers is any interleaving. *)
Inductive step : Job -> Job -> Prop :=
| step_start j :
    j_status j = pending -> step j (start j)
| step_dispatch j j' :
    j_status j = crawling ->
    (length (j_workers j) < j_pool j)%nat ->
    dispatch j = Some j' ->
    step j j'
| step_settle j before after u d r :
    j_status j = crawling ->
    j_workers j = before ++ Fetching u d :: after ->
    step j (settle u d r (before ++ after) j)
| step_feed j before after u d l ls :
    j_status j = crawling ->
    j_workers j = before ++ Expanding u d (l :: ls) :: after ->
    step j (let (f, g) := feed u d l (j_frontier j) (j_graph j)
                            (j_max_depth j) (j_max_pages j) in
            with_state j crawling f g (before ++ Expanding u d ls :: after) (j_error j))
| step_idle j before after u d :
    j_status j = crawling ->
    j_workers j = before ++ Expanding u d [] :: after ->
    step j (with_state j crawling (j_frontier j) (j_graph j) (before ++ after) (j_error j))
| step_complete j :
    j_status j = crawling ->
    queue (j_frontier j) = [] ->
    j_workers j = [] ->
    step j (with_state j completed (j_frontier j) (j_graph j) [] (j_error j))
| step_timeout j :
    j_status j = crawling ->
    step j (timeout j).

(** A job in some state of its execution. *)
Definition reachable (root : string) (max_depth max_pages pool : nat) (j : Job) : Prop :=
  rtc step (new_job root max_depth max_pages pool) j.

(** *** Result assembler (section 4.6) *)

Definition assemble_node (g : GraphStore) (kn : string * NodeData) : PageNode :=
  {| id := node_id (fst kn);
     node_url := nd_url (snd kn);
     title := nd_title (snd kn);
     node_depth := Z.of_nat (nd_depth (snd kn));
     outgoing_links := Z.of_nat (default 0%nat (g_out g !! fst kn));
     incoming_links := Z.of_nat (default 0%nat (g_in g !! fst kn)) |}.

(** The edges with every alias resolved to the URL of its node, each
    ordered pair once. *)
Definition resolved_edges (g : GraphStore) : list (string * string) :=
  remove_dups (List.map (fun e => (resolve g (fst e), resolve g (snd e))) (g_edges g)).

Definition assemble_link (e : string * string) : PageLink :=
  {| source := node_id (fst e); target := node_id (snd e) |}.

(** Modelled from the spec: the externally visible result; a failed job
    has empty lists and an error. *)
Definition assemble (elapsed : Z) (j : Job) : SitemapResult :=
  match j_status j with
  | failed =>
      {| status := failed; root_url := j_root j; total_pages := 0; total_links := 0;
         nodes := []; links := []; crawl_time_seconds := elapsed;
         error := Some (default "crawl failed" (j_error j)) |}
  | s =>
      let g := j_graph j in
      {| status := s; root_url := j_root j;
         total_pages := Z.of_nat (length (g_nodes g));
         total_links := Z.of_nat (length (resolved_edges g));
         nodes := List.map (assemble_node g) (g_nodes g);
         links := List.map assemble_link (resolved_edges g);
         crawl_time_seconds := elapsed; error := None |}
  end.

(** *** Schedules, for running a job on a given site *)

(** What the scheduler can do next: start the job, let a free worker take
    a URL, let the worker at a given place of the pool take its next
    step, complete the job, or let the wall-clock budget run out. *)
Inductive move : Type :=
| Start
| Dispatch
| Advance (i : nat)
| Complete
| Expire.

(** The next step of the worker at place [i]: its fetch settles with what
    the site answers, or it feeds its next link, or it has none left. *)
Definition advance (web : string -> fetched) (i : nat) (j : Job) : Job :=
  let before := take i (j_workers j) in
  let after := drop (S i) (j_workers j) in
  match j_workers j !! i with
  | Some (Fetching u d) => settle u d (web u) (before ++ after) j
  | Some (Expanding u d (l :: ls)) =>
      let (f, g) := feed u d l (j_frontier j) (j_graph j)
                      (j_max_depth j) (j_max_pages j) in
      with_state j crawling f g (before ++ Expanding u d ls :: after) (j_error j)
  | Some (Expanding u d []) =>
      with_state j crawling (j_frontier j) (j_graph j) (before ++ after) (j_error j)
  | None => j
  end.

(** A move is made when the job allows it, and is skipped otherwise. *)
Definition make (web : string -> fetched) (m : move) (j : Job) : Job :=
  match m, j_status j with
  | Start, pending => start j
  | Dispatch, crawling =>
      if (length (j_workers j) <? j_pool j)%nat then default j (dispatch j) else j
  | Advance i, crawling => advance web i j
  | Complete, crawling =>
      match queue (j_frontier j), j_workers j with
      | [], [] => with_state j completed (j_frontier j) (j_graph j) [] (j_error j)
      | _, _ => j
      end
  | Expire, crawling => timeout j
  | _, _ => j
  end.

Definition play (web : string -> fetched) (ms : list move) (j : Job) : Job :=
  foldl (fun acc m => make web m acc) j ms.

End Engine.

End CrawlEngine.

(** ** The rest of the graph component (components/SitemapGraph.tsx) *)

Module GraphView.

(** The radius of a node's circle:
    [Math.max(6, Math.min(15, 5 + d.outgoing_links))]. *)
Definition node_radius (d : PageNode) : Z :=
  Z.max 6 (Z.min 15 (5 + outgoing_links d)).

(** The click handler of a circle: the node handed to [onNodeClick],
    when that callback is given and [nodes.find] finds the id. *)
Definition clicked (nodes : list PageNode) (onNodeClick : bool) (d : PageNode)
  : option PageNode :=
  if onNodeClick then List.find (fun n => String.eqb (id n) (id d)) nodes
  else None.

(** [s.slice(0, n)] *)
Definition slice0 (n : nat) (s : string) : string := substring 0 n s.

Section Labels.

(** [new URL(s).pathname], or [None] when the constructor throws. *)
Variable URL_pathname : string -> option string.

(** The text of a node's label. *)
Definition node_label (d : PageNode) : string :=
  match URL_pathname (node_url d) with
  | Some pathname =>
      let path :=
        if (20 <? String.length pathname)%nat then slice0 20 pathname ++ "..."
        else pathname in
      if String.eqb path "" then "/" else path
  | None => slice0 20 (node_url d)
  end.

End Labels.

End GraphView.

(** ** The payment API (api/payment.ts) *)

Module Payment.

(** What these functions read of a Response: its status, [ok], and what
    [json()] settles to, taken at the type the function declares for it
    (the body is not validated). *)
Record HttpResponse (B : Type) : Type := {
  http_status : Z;
  http_ok : bool;
  http_json : thrown + B
}.

Arguments http_status {B} _.
Arguments http_ok {B} _.
Arguments http_json {B} _.

Inductive http_settled (B : Type) : Type :=
| HttpRejected (reason : thrown)
| HttpResponded (response : HttpResponse B).

Arguments HttpRejected {B} reason.
Arguments HttpResponded {B} response.

(** How a [fetch(input, init)] settles; [init] is absent for a plain GET. *)
Definition http_network (B : Type) : Type :=
  string -> option RequestInit -> http_settled B.

Definition API_BASE : string := "/api/v1".

Record CheckoutRequest : Type := {
  product_sku : string;
  device_id : string;
  success_url : string;
  cancel_url : string
}.

Record CheckoutResponse : Type := {
  checkout_url : string;
  checkout_id : string
}.

Definition CheckoutRequest_json (request : CheckoutRequest) : json :=
  JObj [("product_sku", JStr (product_sku request));
        ("device_id", JStr (device_id request));
        ("success_url", JStr (success_url request));
        ("cancel_url", JStr (cancel_url request))].

Definition createCheckout (net : http_network CheckoutResponse)
  (request : CheckoutRequest) : outcome CheckoutResponse :=
  match net (API_BASE ++ "/payment/create-checkout")
            (Some {| method := "POST";
                     headers := [("Content-Type", "application/json")];
                     body := JSON_stringify (CheckoutRequest_json request) |}) with
  | HttpRejected reason => Raised reason
  | HttpResponded response =>
      if negb (http_ok response) then Raised (new_Error "Failed to create checkout")
      else match http_json response with
           | inl reason => Raised reason
           | inr parsed => Returned parsed
           end
  end.

Definition fetchTokenByDevice (net : http_network (option TokenStore.TokenInfo))
  (deviceId : string) : outcome (option TokenStore.TokenInfo) :=
  match net (API_BASE ++ "/tokens/by-device/" ++ deviceId) None with
  | HttpRejected reason => Raised reason
  | HttpResponded response =>
      if (http_status response =? 404)%Z then Returned None
      else if negb (http_ok response) then Raised (new_Error "Failed to fetch token")
      else match http_json response with
           | inl reason => Raised reason
           | inr parsed => Returned parsed
           end
  end.

Definition validateToken (net : http_network (option TokenStore.TokenInfo))
  (token : string) : outcome (option TokenStore.TokenInfo) :=
  match net (API_BASE ++ "/tokens/validate/" ++ token) None with
  | HttpRejected reason => Raised reason
  | HttpResponded response =>
      if (http_status response =? 404)%Z then Returned None
      else if negb (http_ok response) then Raised (new_Error "Failed to validate token")
      else match http_json response with
           | inl reason => Raised reason
           | inr parsed => Returned parsed
           end
  end.

(** [fetch(url, { method: 'POST' })]: no headers, no body. *)
Definition useGeneration (net : http_network Z) (token : string) : outcome Z :=
  match net (API_BASE ++ "/tokens/use/" ++ token)
            (Some {| method := "POST"; headers := []; body := "" |}) with
  | HttpRejected reason => Raised reason
  | HttpResponded response =>
      if negb (http_ok response) then Raised (new_Error "Failed to use generation")
      else match http_json response with
           | inl reason => Raised reason
           | inr remaining => Returned remaining
           end
  end.

End Payment.

(** ** The payment success page (pages/PaymentSuccessPage.tsx) *)

Module SuccessPage.

Record PageState : Type := {
  loading : bool;
  error : option string
}.

(** [useState(true)], [useState(null)] *)
Definition first_render : PageState := {| loading := true; error := None |}.

(** Everything [fetchToken] touches: the page, the token store and the
    device id session. *)
Record Env : Type := {
  page : PageState;
  store : TokenStore.TokenState;
  session : Fingerprint.Session
}.

(** The effect's [fetchToken], run when its timer fires. *)
Definition fetchToken (w : Fingerprint.World)
  (net : Payment.http_network (option TokenStore.TokenInfo)) (e : Env) : Env :=
  let (deviceId, session') := Fingerprint.getDeviceId w (session e) in
  match Payment.fetchTokenByDevice net deviceId with
  | Returned tokenData =>
      {| page := {| loading := false; error := error (page e) |};
         store := match tokenData with
                  | Some tok => TokenStore.setToken (Some tok) (store e)
                  | None => store e
                  end;
         session := session' |}
  | Raised _ =>
      {| page := {| loading := false;
                    error := Some "Failed to retrieve your credits. Please contact support." |};
         store := store e;
         session := session' |}
  end.

End SuccessPage.

(** ** The pricing page (pages/PricingPage.tsx) *)

Module Pricing.

Record PageState : Type := {
  loading : option string;
  error : option string;
  location_href : option string
}.

(** [useState(null)] twice; nothing assigned to [window.location.href]. *)
Definition first_render : PageState :=
  {| loading := None; error := None; location_href := None |}.

(** [origin] is [window.location.origin]. *)
Definition purchase_request (origin sku deviceId : string) : Payment.CheckoutRequest :=
  {| Payment.product_sku := sku;
     Payment.device_id := deviceId;
     Payment.success_url := origin ++ "/payment/success";
     Payment.cancel_url := origin ++ "/pricing" |}.

Definition handlePurchase (origin : string) (w : Fingerprint.World)
  (net : Payment.http_network Payment.CheckoutResponse) (sku : string)
  (s : Fingerprint.Session) (p : PageState) : PageState * Fingerprint.Session :=
  let (deviceId, s') := Fingerprint.getDeviceId w s in
  match Payment.createCheckout net (purchase_request origin sku deviceId) with
  | Returned response =>
      ({| loading := None; error := None;
          location_href := Some (Payment.checkout_url response) |}, s')
  | Raised _ =>
      ({| loading := None;
          error := Some "Failed to create checkout. Please try again.";
          location_href := location_href p |}, s')
  end.

End Pricing.

(** ** The page generator (programmatic/generator.cjs) *)

Module Generator.

(** What the generator reads of dimensions.json. *)
Record Dimension : Type := {
  dim_name : string;
  dim_values : list string;
  values_display_en : list string
}.

Record Dimensions : Type := {
  base_url : string;
  dimensions : list Dimension;
  combinations : list (string * string)
}.

(** A display name is undefined when the display list is too short. *)
Record Combo : Type := {
  dim1 : string;
  dim2 : string;
  val1 : string;
  val2 : string;
  val1Display : option string;
  val2Display : option string;
  slug : string
}.

Definition find_dimension (dims : Dimensions) (name : string) : option Dimension :=
  List.find (fun d => String.eqb (dim_name d) name) (dimensions dims).

(** The two nested loops over the values of a pair of dimensions. *)
Definition pair_combos (dim1Name dim2Name : string) (d1 d2 : Dimension) : list Combo :=
  mjoin (imap (fun i v1 =>
                 imap (fun j v2 =>
                         {| dim1 := dim1Name; dim2 := dim2Name;
                            val1 := v1; val2 := v2;
                            val1Display := values_display_en d1 !! i;
                            val2Display := values_display_en d2 !! j;
                            slug := v1 ++ "-" ++ v2 |})
                      (dim_values d2))
              (dim_values d1)).

Definition generateCombinations (dims : Dimensions) : list Combo :=
  mjoin (List.map (fun names =>
                     match find_dimension dims (fst names),
                           find_dimension dims (snd names) with
                     | Some d1, Some d2 => pair_combos (fst names) (snd names) d1 d2
                     | _, _ => []
                     end)
                  (combinations dims)).

Definition newline : string := String (ascii_of_N 10) "".

Definition sitemap_header : string :=
  "<?xml version=" ++ dquote ++ "1.0" ++ dquote ++ " encoding=" ++ dquote ++ "UTF-8"
  ++ dquote ++ "?>" ++ newline
  ++ "<urlset xmlns=" ++ dquote ++ "http://www.sitemaps.org/schemas/sitemap/0.9"
  ++ dquote ++ ">" ++ newline.

(** [today] is [new Date().toISOString().split('T')[0]]. *)
Definition sitemap_entry (baseUrl today : string) (combo : Combo) : string :=
  "  <url>" ++ newline
  ++ "    <loc>" ++ baseUrl ++ "/p/" ++ slug combo ++ "</loc>" ++ newline
  ++ "    <lastmod>" ++ today ++ "</lastmod>" ++ newline
  ++ "    <changefreq>monthly</changefreq>" ++ newline
  ++ "    <priority>0.6</priority>" ++ newline
  ++ "  </url>" ++ newline.

Definition generateSitemap (dims : Dimensions) (today : string) (combos : list Combo)
  : string :=
  fold_left (fun xml combo => xml ++ sitemap_entry (base_url dims) today combo)
    combos sitemap_header
  ++ "</urlset>".

Section Main.

(** [path.join(dir, name)], the two fixed paths, and the page template
    [generatePageHTML], whose text plays no part below. *)
Variable path_join : string -> string -> string.
Variable OUTPUT_DIR : string.
Variable SITEMAP_PATH : string.
Variable generatePageHTML : Combo -> string.

Definition page_path (combo : Combo) : string :=
  path_join OUTPUT_DIR (slug combo ++ ".html").

(** The files [main] writes, on a file system given as a map from path
    to content; [writeFileSync] replaces a file that exists. *)
Definition main (dims : Dimensions) (today : string) (files : gmap string string)
  : gmap string string :=
  let combos := generateCombinations dims in
  let pages :=
    fold_left (fun fs combo => <[page_path combo := generatePageHTML combo]> fs)
      combos files in
  <[SITEMAP_PATH := generateSitemap dims today combos]> pages.

End Main.

End Generator.

(** * Properties *)

(** ** Running computations *)

Lemma run_bind {A B : Type} (net : network) (m : io A) (f : A -> io B) :
  run net (bind m f) =
  match run net m with
  | (Returned a, tr) => let (r, tr') := run net (f a) in (r, (tr ++ tr')%list)
  | (Raised e, tr) => (Raised e, tr)
  end.
Proof.
  induction m as [a | e | input init k IH]; simpl.
  - destruct (run net (f a)); reflexivity.
  - reflexivity.
  - rewrite IH. destruct (run net (k (net input init))) as [[a | e] tr]; simpl.
    + destruct (run net (f a)); reflexivity.
    + reflexivity.
Qed.

Lemma run_try_catch {A : Type} (net : network) (m : io A) (h : thrown -> io A) :
  run net (try_catch m h) =
  match run net m with
  | (Returned a, tr) => (Returned a, tr)
  | (Raised e, tr) => let (r, tr') := run net (h e) in (r, (tr ++ tr')%list)
  end.
Proof.
  induction m as [a | e | input init k IH]; simpl.
  - reflexivity.
  - destruct (run net (h e)); reflexivity.
  - rewrite IH. destruct (run net (k (net input init))) as [[a | e] tr]; simpl.
    + reflexivity.
    + destruct (run net (h e)); reflexivity.
Qed.

(** How one settled fetch decides the outcome of [crawlSitemap]. *)
Definition crawl_outcome (settled : fetch_outcome) : outcome json :=
  match settled with
  | FetchRejected reason => Raised reason
  | FetchResponse response =>
      if ok response then
        match json_body response with
        | inl reason => Raised reason
        | inr parsed => Returned parsed
        end
      else
        Raised (failure_of match json_body response with
                           | inl _ => JObj [("detail", JStr "Unknown error")]
                           | inr parsed => parsed
                           end)
  end.

Lemma run_crawlSitemap (api : option string) (net : network) (request : CrawlRequest) :
  run net (crawlSitemap api request) =
  (crawl_outcome (net (crawl_endpoint api) (crawl_init request)),
   [(crawl_endpoint api, crawl_init request)]).
Proof.
  unfold crawlSitemap; simpl.
  destruct (net (crawl_endpoint api) (crawl_init request)) as [reason | response]; simpl.
  - reflexivity.
  - destruct (ok response); simpl.
    + destruct (json_body response); reflexivity.
    + reflexivity.
Qed.

(** ** The shape of a crawl result *)

Lemma Status_of_name_name (s : Status) : Status_of_name (Status_name s) = Some s.
Proof. destruct s; reflexivity. Qed.

Lemma as_PageNode_json (n : PageNode) : as_PageNode (PageNode_json n) = Some n.
Proof. destruct n as [i u [t|] d o k]; reflexivity. Qed.

Lemma as_PageLink_json (l : PageLink) : as_PageLink (PageLink_json l) = Some l.
Proof. destruct l; reflexivity. Qed.

Lemma all_as_map {A : Type} (f : json -> option A) (g : A -> json) (xs : list A) :
  (forall x, f (g x) = Some x) -> all_as f (List.map g xs) = Some xs.
Proof.
  intros Hfg. induction xs as [| x xs IH]; simpl.
  - reflexivity.
  - rewrite Hfg, IH. reflexivity.
Qed.

Lemma as_SitemapResult_json (r : SitemapResult) :
  as_SitemapResult (SitemapResult_json r) = Some r.
Proof.
  destruct r as [st ru tp tl ns ls ct e].
  unfold as_SitemapResult, SitemapResult_json, optional_string; simpl.
  rewrite Status_of_name_name; simpl.
  rewrite (all_as_map as_PageNode PageNode_json ns as_PageNode_json); simpl.
  rewrite (all_as_map as_PageLink PageLink_json ls as_PageLink_json); simpl.
  destruct e; reflexivity.
Qed.

Definition result_fields : list string :=
  ["status"; "root_url"; "total_pages"; "total_links"; "nodes"; "links";
   "crawl_time_seconds"].

Definition node_fields : list string :=
  ["id"; "url"; "title"; "depth"; "outgoing_links"; "incoming_links"].

Definition link_fields : list string := ["source"; "target"].

(** C1, amended. The interface of a crawl result has exactly the fields
    status, root_url, total_pages, total_links, nodes, links,
    crawl_time_seconds and an optional error; its status is one of the
    four names; each node has the six node fields (title a string or
    null) and each link a source and a target.  For every OK response
    crawlSitemap returns the parsed body unchanged and unchecked, whatever
    it is: the value returned is of this shape exactly when the body sent
    is, and an OK response whose body cannot be parsed makes crawlSitemap
    raise. *)
Theorem crawl_result_contract :
  (forall r : SitemapResult,
      field_names (SitemapResult_json r)
        = (result_fields ++ match error r with Some _ => ["error"] | None => [] end)%list
      /\ In (Status_name (status r)) ["pending"; "crawling"; "completed"; "failed"]
      /\ Forall (fun n => field_names (PageNode_json n) = node_fields
                          /\ (field "title" (PageNode_json n) = Some JNull
                              \/ exists s, field "title" (PageNode_json n) = Some (JStr s)))
                (nodes r)
      /\ Forall (fun l => field_names (PageLink_json l) = link_fields) (links r)
      /\ as_SitemapResult (SitemapResult_json r) = Some r)
  /\ (forall (api : option string) (net : network) (request : CrawlRequest)
             (response : Response),
        net (crawl_endpoint api) (crawl_init request) = FetchResponse response ->
        ok response = true ->
        match json_body response with
        | inr parsed =>
            fst (run net (crawlSitemap api request)) = Returned parsed
        | inl reason =>
            fst (run net (crawlSitemap api request)) = Raised reason
        end)
  /\ (forall (api : option string) (net : network) (request : CrawlRequest)
             (response : Response) (v : json),
        net (crawl_endpoint api) (crawl_init request) = FetchResponse response ->
        ok response = true ->
        fst (run net (crawlSitemap api request)) = Returned v ->
        json_body response = inr v
        /\ forall r, as_SitemapResult v = Some r <->
                     exists parsed, json_body response = inr parsed
                                    /\ as_SitemapResult parsed = Some r).
Proof.
  split; [| split].
  - intros r. repeat split.
    + destruct r as [st ru tp tl ns ls ct [e|]]; reflexivity.
    + destruct (status r); simpl; tauto.
    + apply Forall_forall. intros n _. split; [reflexivity |].
      destruct n as [i u [t|] d o k]; simpl; eauto.
    + apply Forall_forall. intros l _. reflexivity.
    + apply as_SitemapResult_json.
  - intros api net request response Hnet Hok.
    rewrite run_crawlSitemap, Hnet; simpl. rewrite Hok.
    destruct (json_body response); reflexivity.
  - intros api net request response v Hnet Hok.
    rewrite run_crawlSitemap, Hnet; simpl. rewrite Hok.
    destruct (json_body response) as [reason | parsed]; [discriminate |].
    intros [= ->]. split; [reflexivity |].
    intros r. split.
    + intros Hr. exists v. split; [reflexivity | exact Hr].
    + intros (parsed & [= <-] & Hr). exact Hr.
Qed.

(** ** Errors of crawlSitemap *)

(** An OK response whose body is not JSON (an HTML page, say): [json()]
    rejects with a SyntaxError. *)
Definition html_response : Response :=
  {| ok := true; json_body := inl (ErrorObj "SyntaxError" "Unexpected token '<'") |}.

Definition sample_request : CrawlRequest :=
  {| url := "https://example.com/"; max_depth := Some 3; max_pages := Some 100 |}.

Lemma get_property_field (body : json) (key : string) :
  body <> JNull -> get_property body key = Some (field key body).
Proof. destruct body; simpl; congruence. Qed.

(** C3, as stated, fails: an OK response whose body cannot be parsed
    makes crawlSitemap raise, although the response is OK. *)
Lemma crawlSitemap_raises_on_ok_response :
  ok html_response = true
  /\ fst (run (fun _ _ => FetchResponse html_response) (crawlSitemap None sample_request))
     = Raised (ErrorObj "SyntaxError" "Unexpected token '<'").
Proof. split; reflexivity. Qed.

(** C3, amended. crawlSitemap raises exactly when the fetch is rejected,
    the response is not OK, or the body of an OK response cannot be
    parsed.  For a response that is not OK the error's message is
    "Unknown error" when the body cannot be parsed, the body's detail when
    that is a non-empty string, and "Crawl failed" when the parsed body
    (not null) has no detail or a falsy one.  A rejected fetch and the
    parse failure of an OK response are raised unchanged. *)
Theorem crawlSitemap_errors (api : option string) (net : network) (request : CrawlRequest) :
  let settled := net (crawl_endpoint api) (crawl_init request) in
  let result := fst (run net (crawlSitemap api request)) in
  ((exists e, result = Raised e) <->
     match settled with
     | FetchRejected _ => True
     | FetchResponse response =>
         ok response = false \/ exists reason, json_body response = inl reason
     end)
  /\ (forall response, settled = FetchResponse response -> ok response = false ->
        (forall reason, json_body response = inl reason ->
           result = Raised (new_Error "Unknown error"))
        /\ (forall body d, json_body response = inr body ->
              field "detail" body = Some (JStr d) -> d <> "" ->
              result = Raised (new_Error d))
        /\ (forall body, json_body response = inr body -> body <> JNull ->
              field "detail" body = None ->
              result = Raised (new_Error "Crawl failed"))
        /\ (forall body d, json_body response = inr body ->
              field "detail" body = Some d -> ToBoolean d = false ->
              result = Raised (new_Error "Crawl failed")))
  /\ (forall reason, settled = FetchRejected reason -> result = Raised reason)
  /\ (forall response reason, settled = FetchResponse response ->
        ok response = true -> json_body response = inl reason ->
        result = Raised reason).
Proof.
  intros settled result. subst result. rewrite run_crawlSitemap. simpl. fold settled.
  repeat split.
  - intros [e He]. destruct settled as [reason | response]; [exact I |].
    simpl in He. destruct (ok response); [| left; reflexivity].
    destruct (json_body response) as [reason | parsed]; [eauto | discriminate].
  - intros H. destruct settled as [reason | response]; simpl; [eauto |].
    destruct H as [-> | [reason ->]]; [eauto |].
    destruct (ok response); eauto.
  - intros reason Hbody. rewrite H; simpl. rewrite H0, Hbody. reflexivity.
  - intros body d Hbody Hd Hne. rewrite H; simpl. rewrite H0, Hbody.
    assert (Hb : body <> JNull) by (intros ->; discriminate).
    unfold failure_of. rewrite (get_property_field _ _ Hb), Hd. simpl.
    destruct (String.eqb_spec d ""); [contradiction | reflexivity].
  - intros body Hbody Hb Hd. rewrite H; simpl. rewrite H0, Hbody.
    unfold failure_of. rewrite (get_property_field _ _ Hb), Hd. reflexivity.
  - intros body d Hbody Hd Hfalsy. rewrite H; simpl. rewrite H0, Hbody.
    assert (Hb : body <> JNull) by (intros ->; discriminate).
    unfold failure_of. rewrite (get_property_field _ _ Hb), Hd, Hfalsy. reflexivity.
  - intros reason ->. reflexivity.
  - intros response reason -> Hok Hbody. simpl. rewrite Hok, Hbody. reflexivity.
Qed.

(** The response of the API's own failure test: not OK, with a detail. *)
Definition invalid_url_response : Response :=
  {| ok := false; json_body := inr (JObj [("detail", JStr "Invalid URL")]) |}.

Lemma crawlSitemap_errors_witness :
  fst (run (fun _ _ => FetchResponse invalid_url_response) (crawlSitemap None sample_request))
  = Raised (new_Error "Invalid URL").
Proof.
  pose proof (crawlSitemap_errors None (fun _ _ => FetchResponse invalid_url_response)
                sample_request) as (_ & H & _).
  destruct (H invalid_url_response eq_refl eq_refl) as (_ & Hdetail & _).
  apply (Hdetail (JObj [("detail", JStr "Invalid URL")]) "Invalid URL" eq_refl eq_refl).
  discriminate.
Defined.

(** ** One request per call *)

(** The number of fetch calls a computation makes, however each settles. *)
Inductive fetches {A : Type} : io A -> nat -> Prop :=
| fetches_ret a : fetches (Ret a) 0
| fetches_throw e : fetches (Throw e) 0
| fetches_fetch input init k n :
    (forall settled, fetches (k settled) n) -> fetches (Fetch input init k) (S n).

(** C8. Every call of crawlSitemap makes exactly one request, however
    that request settles (no retry, no polling); its outcome is decided by
    that one settlement alone; and an OK response with a parsed body is
    returned directly. *)
Theorem crawlSitemap_synchronous (api : option string) (request : CrawlRequest) :
  fetches (crawlSitemap api request) 1
  /\ (forall net : network,
        snd (run net (crawlSitemap api request))
          = [(crawl_endpoint api, crawl_init request)]
        /\ fst (run net (crawlSitemap api request))
          = crawl_outcome (net (crawl_endpoint api) (crawl_init request)))
  /\ (forall (net : network) response parsed,
        net (crawl_endpoint api) (crawl_init request) = FetchResponse response ->
        ok response = true -> json_body response = inr parsed ->
        run net (crawlSitemap api request)
          = (Returned parsed, [(crawl_endpoint api, crawl_init request)])).
Proof.
  repeat split.
  - unfold crawlSitemap. constructor. intros [reason | response].
    + constructor.
    + destruct (negb (ok response)); [constructor |].
      destruct (json_body response); constructor.
  - rewrite run_crawlSitemap. reflexivity.
  - rewrite run_crawlSitemap. reflexivity.
  - intros net response parsed Hnet Hok Hbody.
    rewrite run_crawlSitemap, Hnet. simpl. rewrite Hok, Hbody. reflexivity.
Qed.

(** The result of the API's own success test (its crawl time rounded to
    a whole number of seconds). *)
Definition completed_result : SitemapResult :=
  {| status := completed; root_url := "https://example.com"; total_pages := 3;
     total_links := 2; nodes := []; links := []; crawl_time_seconds := 2;
     error := None |}.

Definition completed_response : Response :=
  {| ok := true; json_body := inr (SitemapResult_json completed_result) |}.

Lemma crawlSitemap_synchronous_witness :
  run (fun _ _ => FetchResponse completed_response) (crawlSitemap None sample_request)
  = (Returned (SitemapResult_json completed_result),
     [("/api/v1/sitemap/crawl/sync", crawl_init sample_request)]).
Proof.
  destruct (crawlSitemap_synchronous None sample_request) as (_ & _ & H).
  apply (H (fun _ _ => FetchResponse completed_response) completed_response
           (SitemapResult_json completed_result)); reflexivity.
Defined.

Lemma crawl_result_contract_witness :
  fst (run (fun _ _ => FetchResponse completed_response) (crawlSitemap None sample_request))
  = Returned (SitemapResult_json completed_result)
  /\ as_SitemapResult (SitemapResult_json completed_result) = Some completed_result.
Proof.
  destruct crawl_result_contract as (Hshape & Hreturn & _).
  split.
  - apply (Hreturn None (fun _ _ => FetchResponse completed_response) sample_request
             completed_response); reflexivity.
  - apply (Hshape completed_result).
Defined.

(** An OK response whose body is the empty object, and one whose body is
    null. *)
Definition empty_object_response : Response :=
  {| ok := true; json_body := inr (JObj []) |}.

Definition null_response : Response :=
  {| ok := true; json_body := inr JNull |}.

(** C1, as stated, fails: an OK response with the body {} or null is
    returned as it is, and the value returned has none of the fields of a
    crawl result. *)
Lemma crawlSitemap_returns_any_body :
  ok empty_object_response = true
  /\ fst (run (fun _ _ => FetchResponse empty_object_response)
            (crawlSitemap None sample_request)) = Returned (JObj [])
  /\ Forall (fun name => field name (JObj []) = None) result_fields
  /\ as_SitemapResult (JObj []) = None
  /\ ok null_response = true
  /\ fst (run (fun _ _ => FetchResponse null_response)
            (crawlSitemap None sample_request)) = Returned JNull
  /\ as_SitemapResult JNull = None.
Proof.
  repeat split; try reflexivity.
  repeat constructor.
Qed.

(** ** The scan handler *)

Lemma run_handleScan (api : option string) (URL_parse : string -> option string)
  (t : string -> string) (net : network) (st : AppState) :
  run net (handleScan api URL_parse t st) =
  match URL_parse (scan_candidate (st_url st)) with
  | None => (Returned (setError (Some (t "error.invalidUrl")) st), [])
  | Some href =>
      let st1 := setSelectedNode None (setResult None (setError None (setLoading true st))) in
      (Returned
         (setLoading false
            match crawl_outcome (net (crawl_endpoint api) (crawl_init (scan_request href st))) with
            | Returned data => setResult (Some data) st1
            | Raised err =>
                setError (Some match err with
                               | ErrorObj _ message => message
                               | NonError _ => t "error.crawlFailed"
                               end) st1
            end),
       [(crawl_endpoint api, crawl_init (scan_request href st))])
  end.
Proof.
  unfold handleScan.
  destruct (URL_parse (scan_candidate (st_url st))) as [href |]; [| reflexivity].
  unfold mbind, io_bind.
  rewrite run_bind, run_try_catch, run_bind, run_crawlSitemap.
  destruct (crawl_outcome _); reflexivity.
Qed.

Lemma handleScan_keeps_options api URL_parse t net st st' trace :
  run net (handleScan api URL_parse t st) = (Returned st', trace) ->
  st_depth st' = st_depth st /\ st_maxPages st' = st_maxPages st.
Proof.
  rewrite run_handleScan.
  destruct (URL_parse (scan_candidate (st_url st))) as [href |]; simpl.
  - destruct (crawl_outcome _); intros [= <- _]; split; reflexivity.
  - intros [= <- _]; split; reflexivity.
Qed.

Lemma depth_options_range (d : Z) : In d depth_options <-> (1 <= d <= 5)%Z.
Proof. unfold depth_options; simpl. lia. Qed.

Lemma user_step_depth api URL_parse t st st' :
  user_step api URL_parse t st st' ->
  (1 <= st_depth st <= 5)%Z -> (1 <= st_depth st' <= 5)%Z.
Proof.
  intros Hstep Hd. destruct Hstep as [v st | i st | i st | net st st' trace Hrun | n st | st];
    simpl; try exact Hd.
  - unfold onDepthChange.
    destruct (depth_options !! i) as [d |] eqn:Hi; [| exact Hd].
    simpl. apply depth_options_range, list_elem_of_In.
    apply (list_elem_of_lookup_2 _ _ _ Hi).
  - unfold onMaxPagesChange. destruct (maxPages_options !! i); exact Hd.
  - destruct (handleScan_keeps_options _ _ _ _ _ _ _ Hrun) as [-> _]. exact Hd.
Qed.

(** C2. A crawl request carries its url and, when given, the integers
    max_depth and max_pages; the page starts with depth 3 and 100 pages;
    the depths on offer are the integers 1 to 5, and whatever the user
    does the depth stays among them; every call of crawlSitemap issues
    exactly one request, a POST of the request's JSON to
    /api/v1/sitemap/crawl/sync (after the configured base); and a scan of
    a parseable URL issues exactly that one request, carrying the parsed
    URL, the depth and the page limit of the page. *)
Theorem crawl_request_contract :
  (forall request : CrawlRequest,
      field_names (CrawlRequest_json request)
        = (["url"] ++ match max_depth request with Some _ => ["max_depth"] | None => [] end
                   ++ match max_pages request with Some _ => ["max_pages"] | None => [] end)%list
      /\ field "url" (CrawlRequest_json request) = Some (JStr (url request)))
  /\ (st_depth initial_state = 3%Z /\ st_maxPages initial_state = 100%Z)
  /\ (forall d : Z, In d depth_options <-> (1 <= d <= 5)%Z)
  /\ (forall api URL_parse t st,
        rtc (user_step api URL_parse t) initial_state st -> (1 <= st_depth st <= 5)%Z)
  /\ (forall api net request,
        fetches (crawlSitemap api request) 1
        /\ snd (run net (crawlSitemap api request))
           = [(API_BASE api ++ "/api/v1/sitemap/crawl/sync",
               {| method := "POST";
                  headers := [("Content-Type", "application/json")];
                  body := JSON_stringify (CrawlRequest_json request) |})])
  /\ API_BASE None ++ "/api/v1/sitemap/crawl/sync" = "/api/v1/sitemap/crawl/sync"
  /\ (forall api URL_parse t net st href,
        URL_parse (scan_candidate (st_url st)) = Some href ->
        snd (run net (handleScan api URL_parse t st))
        = [(API_BASE api ++ "/api/v1/sitemap/crawl/sync",
            {| method := "POST";
               headers := [("Content-Type", "application/json")];
               body := JSON_stringify
                         (JObj [("url", JStr href); ("max_depth", JNum (st_depth st));
                                ("max_pages", JNum (st_maxPages st))]) |})]).
Proof.
  split; [| split; [| split; [| split; [| split; [| split]]]]].
  - intros request. split; destruct request as [u [d |] [p |]]; reflexivity.
  - split; reflexivity.
  - apply depth_options_range.
  - intros api URL_parse t st H.
    apply (rtc_ind_r (fun s => (1 <= st_depth s <= 5)%Z) initial_state) with (3 := H).
    + simpl; lia.
    + intros y z _ Hstep Hy. eapply user_step_depth; eauto.
  - intros api net request. split.
    + unfold crawlSitemap. constructor. intros [reason | response].
      * constructor.
      * destruct (negb (ok response)); [constructor |].
        destruct (json_body response); constructor.
    + rewrite run_crawlSitemap. reflexivity.
  - reflexivity.
  - intros api URL_parse t net st href Hparse.
    rewrite run_handleScan, Hparse. reflexivity.
Qed.

(** The page after the user typed example.com and chose depth 2. *)
Definition typed_state : AppState :=
  onDepthChange 1 (setUrl "example.com" initial_state).

(** What [new URL] does at the inputs used in the examples:
    https://example.com is serialised with a trailing slash; the parser
    removes ASCII tabs, so https:// followed by a tab and httpbin.org is
    https://httpbin.org/; the other strings used below (a host name with
    no scheme in front, a host with spaces) make it throw. *)
Definition URL_examples (s : string) : option string :=
  if String.eqb s "https://example.com" then Some "https://example.com/"
  else if String.eqb s ("https://" ++ String (ascii_of_N 9) "httpbin.org")
       then Some "https://httpbin.org/"
  else None.

Lemma crawl_request_contract_witness :
  snd (run (fun _ _ => FetchResponse completed_response)
         (handleScan None URL_examples (fun key => key) typed_state))
  = [("/api/v1/sitemap/crawl/sync",
      {| method := "POST";
         headers := [("Content-Type", "application/json")];
         body := "{" ++ dquote ++ "url" ++ dquote ++ ":" ++ dquote ++ "https://example.com/"
                 ++ dquote ++ "," ++ dquote ++ "max_depth" ++ dquote ++ ":2,"
                 ++ dquote ++ "max_pages" ++ dquote ++ ":100}" |})].
Proof.
  destruct crawl_request_contract as (_ & _ & _ & _ & _ & _ & H).
  apply (H None URL_examples (fun key => key)
           (fun _ _ => FetchResponse completed_response) typed_state
           "https://example.com/").
  reflexivity.
Defined.

(** ** Unparseable input *)

(** A host name pasted with a tab in front of it.  The URL parser removes
    tabs, so after the prefix the string is a URL; without the prefix it
    has no scheme and [new URL] throws. *)
Definition tab_input : string := String (ascii_of_N 9) "httpbin.org".

(** C7, as stated, fails: the trimmed input starts with http, so the
    string read by the claim is the input itself, which cannot be parsed;
    yet the handler, which looks at the untrimmed input, prefixes it,
    parses it and issues a crawl request, and reports no error. *)
Lemma handleScan_trimmed_input_counterexample :
  URL_examples (trimmed_candidate tab_input) = None
  /\ run (fun _ _ => FetchResponse completed_response)
       (handleScan None URL_examples (fun key => key) (setUrl tab_input initial_state))
     = (Returned
          (setLoading false
             (setResult (Some (SitemapResult_json completed_result))
                (setSelectedNode None
                   (setResult None
                      (setError None (setLoading true (setUrl tab_input initial_state))))))),
        [("/api/v1/sitemap/crawl/sync",
          crawl_init {| url := "https://httpbin.org/"; max_depth := Some 3%Z;
                        max_pages := Some 100%Z |})]).
Proof. split; reflexivity. Qed.

Lemma prefix_trimEnd (p s : string) :
  (forall a, In a (list_ascii_of_string p) -> is_space a = false) ->
  String.prefix p (trimEnd s) = String.prefix p s.
Proof.
  revert s. induction p as [| c p IH]; intros s Hp.
  - destruct s; simpl; [reflexivity |]. destruct (trimEnd s); [destruct (is_space a) |]; reflexivity.
  - destruct s as [| a s]; [reflexivity |].
    assert (Hc : is_space c = false) by (apply Hp; left; reflexivity).
    assert (Hp' : forall a, In a (list_ascii_of_string p) -> is_space a = false)
      by (intros b Hb; apply Hp; right; exact Hb).
    specialize (IH s Hp').
    simpl. destruct (trimEnd s) as [| b kept] eqn:Hs.
    + destruct (ascii_dec c a) as [-> | Hne].
      * rewrite Hc. simpl. destruct (ascii_dec a a); [| contradiction]. exact IH.
      * destruct (is_space a); simpl; [reflexivity |].
        destruct (ascii_dec c a); [contradiction | reflexivity].
    + simpl. destruct (ascii_dec c a); [exact IH | reflexivity].
Qed.

Lemma trimmed_candidate_no_leading_space (input : string) :
  trimStart input = input -> trimmed_candidate input = scan_candidate input.
Proof.
  intros Hstart. unfold trimmed_candidate, scan_candidate, startsWith, trim.
  rewrite Hstart, prefix_trimEnd; [reflexivity |].
  simpl. intros a [<- | [<- | [<- | [<- | []]]]]; reflexivity.
Qed.

(** C7, amended. The string given to the URL parser is the input as
    typed, prefixed with https:// exactly when that input, untrimmed, does
    not start with http (for an input with no white space in front this is
    the reading of the claim).  Whenever that string cannot be parsed, the
    handler sets the invalid-URL error, changes nothing else, and issues
    no request. *)
Theorem handleScan_rejects_unparseable (api : option string)
  (URL_parse : string -> option string) (t : string -> string) (net : network)
  (st : AppState) :
  URL_parse (scan_candidate (st_url st)) = None ->
  run net (handleScan api URL_parse t st)
    = (Returned (setError (Some (t "error.invalidUrl")) st), [])
  /\ (startsWith (st_url st) "http" = true -> scan_candidate (st_url st) = st_url st)
  /\ (startsWith (st_url st) "http" = false ->
      scan_candidate (st_url st) = "https://" ++ st_url st)
  /\ (trimStart (st_url st) = st_url st ->
      trimmed_candidate (st_url st) = scan_candidate (st_url st)).
Proof.
  intros Hparse. split; [| split; [| split]].
  - rewrite run_handleScan, Hparse. reflexivity.
  - unfold scan_candidate. intros ->. reflexivity.
  - unfold scan_candidate. intros ->. reflexivity.
  - apply trimmed_candidate_no_leading_space.
Qed.

(** The input of the page's own test of an invalid URL. *)
Lemma handleScan_rejects_unparseable_witness :
  run (fun _ _ => FetchResponse completed_response)
    (handleScan None URL_examples (fun key => key)
       (setUrl "ht tp://invalid url with spaces" initial_state))
  = (Returned (setError (Some "error.invalidUrl")
                 (setUrl "ht tp://invalid url with spaces" initial_state)), []).
Proof.
  apply (handleScan_rejects_unparseable None URL_examples (fun key => key)
           (fun _ _ => FetchResponse completed_response)
           (setUrl "ht tp://invalid url with spaces" initial_state)).
  reflexivity.
Defined.

(** ** The token store *)

Module TokenStoreFacts.
Import TokenStore.

(** A token of the pack of five with two scans left. *)
Definition two_scans : TokenInfo :=
  {| token_value := "tok_1"; remaining_generations := 2; total_generations := 5;
     expires_at := "2030-01-01T00:00:00Z"; product_sku := "pack_5" |}.

End TokenStoreFacts.

Module TokenStoreNumberFacts.
Import TokenStoreNumber.

(** A token of the pack of five with the given count left. *)
Definition with_count (c : float) : TokenInfo :=
  {| token_value := "tok_1"; remaining_generations := c; total_generations := 5;
     expires_at := "2030-01-01T00:00:00Z"; product_sku := "pack_5" |}.

(** C9, as stated, fails: setToken stores a count of -3 as it is given,
    and decrementCredits leaves it, although it is not 0; decrementCredits
    itself takes a count of 0.5 to -0.5; and a count of 2 to the power 54
    is not lowered at all, the next double below it being 2 less. *)
Lemma token_store_negative_count :
  token (setToken (Some (with_count (-3))) initial) = Some (with_count (-3))
  /\ PrimFloat.ltb (-3) 0 = true
  /\ decrementCredits {| token := Some (with_count (-3)) |}
     = {| token := Some (with_count (-3)) |}
  /\ PrimFloat.ltb 0 0.5 = true
  /\ decrementCredits {| token := Some (with_count 0.5) |}
     = {| token := Some (with_count (-0.5)) |}
  /\ PrimFloat.ltb (-0.5) 0 = true
  /\ decrementCredits {| token := Some (with_count 18014398509481984) |}
     = {| token := Some (with_count 18014398509481984) |}.
Proof. repeat split. Qed.

(** C9, amended. The store holds the token setToken is given, whatever
    its count.  decrementCredits changes nothing when no token is stored
    or the count is not greater than 0 (0, a negative count or NaN), and
    otherwise replaces the count by the count minus 1, as doubles, and
    leaves every other field of the token as it was.  hasCredits is true
    exactly when a token is stored, the time its expires_at parses to, if
    it parses, is not earlier than the current time, and the count is
    greater than 0. *)
Theorem token_store_credits :
  (forall (tok : option TokenInfo) (s : TokenState), token (setToken tok s) = tok)
  /\ (forall s : TokenState, token s = None -> decrementCredits s = s)
  /\ (forall (s : TokenState) (tok : TokenInfo),
        token s = Some tok ->
        PrimFloat.ltb 0 (remaining_generations tok) = false ->
        decrementCredits s = s)
  /\ (forall (s : TokenState) (tok : TokenInfo),
        token s = Some tok ->
        PrimFloat.ltb 0 (remaining_generations tok) = true ->
        exists tok', token (decrementCredits s) = Some tok'
          /\ remaining_generations tok' = PrimFloat.sub (remaining_generations tok) 1
          /\ token_value tok' = token_value tok
          /\ total_generations tok' = total_generations tok
          /\ expires_at tok' = expires_at tok
          /\ product_sku tok' = product_sku tok)
  /\ (forall (Date_parse : string -> option Z) (now : Z) (s : TokenState),
        hasCredits Date_parse now s = true <->
        exists tok, token s = Some tok
                    /\ (forall at_ms, Date_parse (expires_at tok) = Some at_ms ->
                          (now <= at_ms)%Z)
                    /\ PrimFloat.ltb 0 (remaining_generations tok) = true).
Proof.
  split; [| split; [| split; [| split]]].
  - reflexivity.
  - unfold decrementCredits. intros s ->. reflexivity.
  - unfold decrementCredits. intros s tok -> ->. reflexivity.
  - unfold decrementCredits. intros s tok -> ->.
    eexists. split; [reflexivity |]. simpl. repeat split.
  - intros Date_parse now s. unfold hasCredits. split.
    + destruct (token s) as [tok |]; [| discriminate].
      destruct (Date_parse (expires_at tok)) as [at_ms |] eqn:Hparse.
      * destruct (at_ms <? now)%Z eqn:Hlt; [discriminate |].
        intros Hpos. exists tok. split; [reflexivity |]. split; [| exact Hpos].
        intros t Ht. rewrite Hparse in Ht. injection Ht as <-.
        apply Z.ltb_ge, Hlt.
      * intros Hpos. exists tok. split; [reflexivity |]. split; [| exact Hpos].
        intros t Ht. rewrite Hparse in Ht. discriminate.
    + intros (tok & -> & Hnot & Hpos).
      destruct (Date_parse (expires_at tok)) as [at_ms |] eqn:Hparse; [| exact Hpos].
      pose proof (Hnot at_ms eq_refl) as Hle.
      apply Z.ltb_ge in Hle. rewrite Hle. exact Hpos.
Qed.

(** The clock of the year 2030 and before. *)
Definition parse_2030 (s : string) : option Z :=
  if String.eqb s "2030-01-01T00:00:00Z" then Some 1893456000000%Z else None.

Lemma token_store_credits_witness :
  decrementCredits {| token := Some (with_count 2) |} = {| token := Some (with_count 1) |}
  /\ hasCredits parse_2030 1700000000000 {| token := Some (with_count 1) |} = true
  /\ hasCredits parse_2030 1900000000000 {| token := Some (with_count 1) |} = false.
Proof.
  destruct token_store_credits as (_ & _ & _ & Hdec & Hhas).
  split; [| split].
  - destruct (Hdec {| token := Some (with_count 2) |} (with_count 2) eq_refl eq_refl)
      as (tok' & Htok & Hcount & Hvalue & Htotal & Hexp & Hsku).
    destruct (decrementCredits {| token := Some (with_count 2) |}) as [stored].
    simpl in Htok. subst stored. destruct tok' as [v c t e k]. simpl in *.
    subst. reflexivity.
  - apply (Hhas parse_2030 1700000000000%Z {| token := Some (with_count 1) |}).
    exists (with_count 1). split; [reflexivity |]. split; [| reflexivity].
    intros at_ms [= <-]. lia.
  - destruct (hasCredits parse_2030 1900000000000 {| token := Some (with_count 1) |})
      eqn:Hyes; [| reflexivity].
    apply (Hhas parse_2030 1900000000000%Z) in Hyes.
    destruct Hyes as (tok & [= <-] & Hnot & _).
    specialize (Hnot 1893456000000%Z eq_refl). lia.
Defined.

End TokenStoreNumberFacts.

(** ** The device id *)

Module FingerprintFacts.
Import Fingerprint FingerprintAsync.

Lemma truthy_Some (d : string) : d <> "" -> truthy (Some d) = true.
Proof. intros Hd. simpl. destruct (String.eqb_spec d ""); [contradiction | reflexivity]. Qed.

(** A call that finds a cached id returns it and changes nothing. *)
Lemma getDeviceId_cached (w : World) (s : Session) (d : string) :
  cachedDeviceId s = Some d -> d <> "" -> getDeviceId w s = (d, s).
Proof.
  intros Hc Hd. unfold getDeviceId. rewrite Hc, (truthy_Some d Hd). reflexivity.
Qed.

(** A call that returns a non-empty id leaves it cached. *)
Lemma getDeviceId_caches (w : World) (s : Session) :
  fst (getDeviceId w s) <> "" ->
  cachedDeviceId (snd (getDeviceId w s)) = Some (fst (getDeviceId w s)).
Proof.
  unfold getDeviceId.
  destruct (cachedDeviceId s) as [c |] eqn:Hc; simpl.
  - destruct (String.eqb_spec c ""); simpl.
    + destruct (visitorId w); simpl; [reflexivity |].
      destruct (localStorage s !! "device_id") as [stored |]; simpl; [| reflexivity].
      destruct (String.eqb stored ""); reflexivity.
    + intros _. exact Hc.
  - destruct (visitorId w); simpl; [reflexivity |].
    destruct (localStorage s !! "device_id") as [stored |]; simpl; [| reflexivity].
    destruct (String.eqb stored ""); reflexivity.
Qed.

(** Only the fingerprint can be empty: a stored id is used when it is
    truthy, and a generated one starts with fallback_. *)
Lemma getDeviceId_nonempty (w : World) (s : Session) :
  visitorId w <> Some "" -> fst (getDeviceId w s) <> "".
Proof.
  intros Hv. unfold getDeviceId.
  assert (Hslow :
    fst (match visitorId w with
         | Some v => (v, {| cachedDeviceId := Some v; localStorage := localStorage s |})
         | None =>
             if truthy (localStorage s !! "device_id") then
               (default "" (localStorage s !! "device_id"),
                {| cachedDeviceId := localStorage s !! "device_id";
                   localStorage := localStorage s |})
             else
               ("fallback_" ++ random_digits w,
                {| cachedDeviceId := Some ("fallback_" ++ random_digits w);
                   localStorage := <["device_id" := "fallback_" ++ random_digits w]>
                                     (localStorage s) |})
         end) <> "").
  { destruct (visitorId w) as [v |]; simpl.
    - intros ->. apply Hv. reflexivity.
    - destruct (localStorage s !! "device_id") as [stored |]; simpl.
      + destruct (String.eqb_spec stored ""); simpl; [discriminate | assumption].
      + discriminate. }
  destruct (cachedDeviceId s) as [c |]; simpl; [| exact Hslow].
  destruct (String.eqb_spec c ""); simpl; [exact Hslow | assumption].
Qed.

Lemma calls_cached (ws : list World) (s : Session) (d : string) :
  cachedDeviceId s = Some d -> d <> "" ->
  calls ws s = (replicate (length ws) d, s).
Proof.
  intros Hc Hd. induction ws as [| w ws IH]; simpl.
  - reflexivity.
  - rewrite (getDeviceId_cached w s d Hc Hd), IH. reflexivity.
Qed.

(** A call that runs alone does what [getDeviceId] does atomically. *)
Lemma occurs_alone (w : World) (p : Page) :
  waiting p = [] ->
  occurs (alone w) p
  = {| session := snd (getDeviceId w (session p)); waiting := [];
       returned := (returned p ++ [fst (getDeviceId w (session p))])%list |}.
Proof.
  destruct p as [s ws rs]. simpl. intros ->.
  unfold alone, occurs, getDeviceId. simpl.
  destruct (truthy (cachedDeviceId s)) eqn:Hc; simpl.
  - destruct (visitorId w); reflexivity.
  - destruct (visitorId w) as [v |]; simpl; [reflexivity |].
    unfold catch_block.
    destruct (truthy (localStorage s !! "device_id")); reflexivity.
Qed.

Lemma occurs_app (es es' : list event) (p : Page) :
  occurs (es ++ es') p = occurs es' (occurs es p).
Proof. unfold occurs. apply foldl_app. Qed.

(** Calls that are made in turn return what [calls] returns. *)
Lemma occurs_in_turn (ws : list World) (p : Page) :
  waiting p = [] ->
  occurs (in_turn ws) p
  = {| session := snd (calls ws (session p)); waiting := [];
       returned := (returned p ++ fst (calls ws (session p)))%list |}.
Proof.
  revert p. induction ws as [| w ws IH]; intros p Hp.
  - destruct p as [s wt rs]. simpl in *. subst wt.
    rewrite app_nil_r. reflexivity.
  - change (in_turn (w :: ws)) with (alone w ++ in_turn ws)%list.
    rewrite occurs_app, (occurs_alone w p Hp), IH by reflexivity.
    cbn [session returned calls].
    destruct (getDeviceId w (session p)) as [d s1]. cbn [fst snd].
    destruct (calls ws s1) as [ds s2]. cbn [fst snd].
    rewrite <- app_assoc. reflexivity.
Qed.

(** C10, amended. In a session whose calls are made in turn, each
    returning before the next is made, once a call has returned a device
    id that is not empty, every later call returns that same id and leaves
    the session as it is, whatever fingerprinting, localStorage or the
    random generator would yield by then.  The id is the cached one, the
    fingerprint, the stored fallback or a fresh fallback. *)
Theorem getDeviceId_stable (w : World) (later : list World) (s : Session) :
  let d := fst (getDeviceId w s) in
  d <> "" ->
  returned (occurs (in_turn (w :: later)) (opened s)) = replicate (S (length later)) d
  /\ calls (w :: later) s = (replicate (S (length later)) d, snd (getDeviceId w s))
  /\ cachedDeviceId (snd (getDeviceId w s)) = Some d
  /\ (forall i j a b, (i <= j)%nat ->
        fst (calls (w :: later) s) !! i = Some a ->
        fst (calls (w :: later) s) !! j = Some b -> a = b)
  /\ (d = default "" (cachedDeviceId s)
      \/ visitorId w = Some d
      \/ localStorage s !! "device_id" = Some d
      \/ d = "fallback_" ++ random_digits w).
Proof.
  intros d Hne.
  pose proof (getDeviceId_caches w s Hne) as Hcached.
  assert (Hcalls : calls (w :: later) s
                   = (replicate (S (length later)) d, snd (getDeviceId w s))).
  { simpl. destruct (getDeviceId w s) as [d0 s1] eqn:Hcall. simpl in *.
    rewrite (calls_cached later s1 d0 Hcached Hne). reflexivity. }
  split; [| split; [exact Hcalls |]; split; [exact Hcached |]; split].
  - rewrite occurs_in_turn by reflexivity.
    cbn [returned opened session]. rewrite Hcalls. reflexivity.
  - intros i j a b _. rewrite Hcalls. cbn [fst].
    intros Ha Hb.
    apply lookup_replicate in Ha as [-> _]. apply lookup_replicate in Hb as [-> _].
    reflexivity.
  - subst d. unfold getDeviceId.
    destruct (truthy (cachedDeviceId s)); simpl; [left; reflexivity |].
    destruct (visitorId w) as [v |]; simpl; [right; left; reflexivity |].
    destruct (localStorage s !! "device_id") as [stored |] eqn:Hst; simpl.
    + destruct (String.eqb stored ""); simpl; eauto.
    + eauto.
Qed.

(** Fingerprinting fails on the first call and there is no stored id; on
    the later calls fingerprinting would succeed. *)
Lemma getDeviceId_stable_witness :
  fst (calls [ {| visitorId := None; random_digits := "k3j2h1" |};
               {| visitorId := Some "9f8e7d"; random_digits := "zzzzzz" |};
               {| visitorId := None; random_digits := "aaaaaa" |} ]
         (fresh ∅))
  = ["fallback_k3j2h1"; "fallback_k3j2h1"; "fallback_k3j2h1"].
Proof.
  pose proof (getDeviceId_stable {| visitorId := None; random_digits := "k3j2h1" |}
                [ {| visitorId := Some "9f8e7d"; random_digits := "zzzzzz" |};
                  {| visitorId := None; random_digits := "aaaaaa" |} ]
                (fresh ∅)) as H.
  destruct H as (_ & Hcalls & _); [discriminate |].
  rewrite Hcalls. reflexivity.
Defined.

(** C10, as stated, fails.  Two calls overlap: both find the cache empty
    and are suspended; fingerprinting fails for the first, which returns a
    fresh fallback id, and succeeds for the second, which returns the
    fingerprint, as does a third call made after both have returned.  And
    a fingerprint that is the empty string is returned but not served from
    the cache, so the next call returns another id. *)
Lemma overlapping_calls_differ :
  returned (occurs [Call; Call; Rejects 0 "k3j2h1"; LoadResolves 0;
                    GetResolves 0 "9f8e7d"; Call]
              (opened (fresh ∅)))
  = ["fallback_k3j2h1"; "9f8e7d"; "9f8e7d"]
  /\ fst (calls [ {| visitorId := Some ""; random_digits := "k3j2h1" |};
                  {| visitorId := Some "9f8e7d"; random_digits := "zzzzzz" |} ]
            (fresh ∅))
     = [""; "9f8e7d"].
Proof. split; vm_compute; reflexivity. Qed.

End FingerprintFacts.

(** ** The links given to the force simulation *)

Module GraphFacts.
Import Graph.

Lemma nodeMap_from (ns : list PageNode) (m : gmap string PageNode) (k : string) :
  is_Some (foldl (fun m n => <[id n := n]> m) m ns !! k)
  <-> is_Some (m !! k) \/ In k (List.map id ns).
Proof.
  revert m. induction ns as [| n ns IH]; intros m; simpl.
  - tauto.
  - rewrite IH. destruct (decide (id n = k)) as [-> | Hne].
    + rewrite lookup_insert_eq. split; [eauto | intros _; left; eauto].
    + rewrite lookup_insert_ne by exact Hne. tauto.
Qed.

Lemma has_nodeMap (ns : list PageNode) (k : string) :
  has (nodeMap ns) k = true <-> In k (List.map id ns).
Proof.
  unfold has, nodeMap. rewrite bool_decide_eq_true, nodeMap_from.
  rewrite lookup_empty. split; [intros [[x Hx] | H]; [discriminate | exact H] | eauto].
Qed.

Lemma copy_nodes (ns : list PageNode) : List.map (fun n => n) ns = ns.
Proof. induction ns as [| n ns IH]; simpl; [| rewrite IH]; reflexivity. Qed.

Lemma copy_links (ls : list PageLink) :
  List.map (fun l => {| source := source l; target := target l |}) ls = ls.
Proof.
  induction ls as [| [s t] ls IH]; simpl; [| rewrite IH]; reflexivity.
Qed.

(** Whether both ends of a link are ids of the given nodes. *)
Definition known (nodes : list PageNode) (k : string) : bool :=
  existsb (String.eqb k) (List.map id nodes).

Definition attached (nodes : list PageNode) (l : PageLink) : bool :=
  known nodes (source l) && known nodes (target l).

Lemma known_In (nodes : list PageNode) (k : string) :
  known nodes k = true <-> In k (List.map id nodes).
Proof.
  unfold known. rewrite existsb_exists. split.
  - intros (x & Hx & Heq). apply String.eqb_eq in Heq. subst x. exact Hx.
  - intros Hk. exists k. split; [exact Hk | apply String.eqb_refl].
Qed.

Lemma d3Links_filter (nodes : list PageNode) (links : list PageLink) :
  d3Links nodes links = List.filter (attached nodes) links.
Proof.
  unfold d3Links. rewrite copy_links, copy_nodes.
  apply List.filter_ext. intros l. unfold attached.
  apply eq_true_iff_eq.
  rewrite !andb_true_iff, !known_In, !has_nodeMap. reflexivity.
Qed.


(** The nodes and links of the component's own tests: two links between
    known nodes, and one between unknown ones. *)
Definition home : PageNode :=
  {| id := "abc"; node_url := "https://example.com"; title := Some "Home";
     node_depth := 0; outgoing_links := 2; incoming_links := 0 |}.
Definition about : PageNode :=
  {| id := "def"; node_url := "https://example.com/about"; title := Some "About";
     node_depth := 1; outgoing_links := 1; incoming_links := 1 |}.
Definition contact : PageNode :=
  {| id := "ghi"; node_url := "https://example.com/contact"; title := None;
     node_depth := 1; outgoing_links := 0; incoming_links := 1 |}.


(** A completed result with the three nodes of the tests and the link of
    the test for invalid links, which none of the nodes has an end of. *)
Definition dangling_result : SitemapResult :=
  {| status := completed; root_url := "https://example.com"; total_pages := 3;
     total_links := 1; nodes := [home; about; contact];
     links := [ {| source := "nonexistent1"; target := "nonexistent2" |} ];
     crawl_time_seconds := 2; error := None |}.

Definition dangling_response : Response :=
  {| ok := true; json_body := inr (SitemapResult_json dangling_result) |}.


End GraphFacts.

(** ** The crawl engine: one node per page *)

Module CrawlEngineFacts.
Import CrawlEngine.

Local Open Scope list_scope.
Local Open Scope nat_scope.

Section Invariants.

Variable normalize : string -> string.
Variable in_scope : string -> bool.
Variable node_id : string -> string.
Variable parseable : string -> bool.
Variable external_depth : nat -> nat.

Abbreviation enqueue := (enqueue normalize in_scope).
Abbreviation addNode := (addNode normalize).
Abbreviation addEdge := (addEdge normalize).
Abbreviation addAlias := (addAlias normalize).
Abbreviation call := (call normalize).
Abbreviation build := (build normalize).
Abbreviation discoveries := (discoveries normalize).
Abbreviation feed := (feed normalize in_scope external_depth).
Abbreviation settle := (settle normalize).
Abbreviation start := (start normalize in_scope parseable).
Abbreviation step := (step normalize in_scope parseable external_depth).
Abbreviation reachable := (reachable normalize in_scope parseable external_depth).
Abbreviation advance := (advance normalize in_scope external_depth).
Abbreviation make := (make normalize in_scope parseable external_depth).
Abbreviation play := (play normalize in_scope parseable external_depth).
Abbreviation assemble := (assemble node_id).

(** *** The graph builder *)

Lemma find_node_app key ns ms :
  find_node key (ns ++ ms) =
  match find_node key ns with Some nd => Some nd | None => find_node key ms end.
Proof.
  induction ns as [| [k nd] ns IH]; simpl; [reflexivity |].
  destruct (String.eqb key k); [reflexivity | exact IH].
Qed.

Lemma find_node_None key ns : find_node key ns = None <-> key ∉ ns.*1.
Proof.
  induction ns as [| [k nd] ns IH]; simpl.
  - split; [intros _; apply not_elem_of_nil | reflexivity].
  - rewrite not_elem_of_cons. destruct (String.eqb_spec key k) as [-> | Hne].
    + split; [discriminate | intros [H _]; contradiction].
    + rewrite IH. tauto.
Qed.

Lemma has_node_false key g :
  has_node key g = false <-> find_node key (g_nodes g) = None.
Proof.
  unfold has_node, node_keys. rewrite bool_decide_eq_false, find_node_None. reflexivity.
Qed.

Lemma addNode_nodes u d t g :
  g_nodes (addNode u d t g) =
  if has_node (normalize u) g then g_nodes g
  else g_nodes g ++ [(normalize u, {| nd_url := u; nd_title := t; nd_depth := d |})].
Proof. unfold CrawlEngine.addNode. destruct (has_node (normalize u) g); reflexivity. Qed.

Lemma addEdge_nodes s t g : g_nodes (addEdge s t g) = g_nodes g.
Proof. unfold CrawlEngine.addEdge. destruct (bool_decide _); reflexivity. Qed.

Lemma addAlias_nodes a u g : g_nodes (addAlias a u g) = g_nodes g.
Proof. unfold CrawlEngine.addAlias. destruct (String.eqb _ _); reflexivity. Qed.

(** A node, once created, is never changed by a later call. *)
Lemma call_keeps_node c g key nd :
  find_node key (g_nodes g) = Some nd -> find_node key (g_nodes (call c g)) = Some nd.
Proof.
  intros Hfind. destruct c as [u d t | s t | a u]; simpl.
  - rewrite addNode_nodes. destruct (has_node (normalize u) g); [exact Hfind |].
    rewrite find_node_app, Hfind. reflexivity.
  - rewrite addEdge_nodes. exact Hfind.
  - rewrite addAlias_nodes. exact Hfind.
Qed.

Lemma build_keeps_node cs g key nd :
  find_node key (g_nodes g) = Some nd -> find_node key (g_nodes (build cs g)) = Some nd.
Proof.
  revert g. induction cs as [| c cs IH]; intros g Hfind; simpl; [exact Hfind |].
  apply IH, call_keeps_node, Hfind.
Qed.

Lemma build_app cs cs' g : build (cs ++ cs') g = build cs' (build cs g).
Proof. unfold CrawlEngine.build. apply foldl_app. Qed.

(** The first discovery decides the depth. *)
Lemma build_first_discovery cs g key :
  nd_depth <$> find_node key (g_nodes (build cs g)) =
  match find_node key (g_nodes g) with
  | Some nd => Some (nd_depth nd)
  | None => head (discoveries key cs)
  end.
Proof.
  revert g. induction cs as [| c cs IH]; intros g; simpl.
  - destruct (find_node key (g_nodes g)); reflexivity.
  - rewrite IH. destruct c as [u d t | s t | a u]; simpl.
    + rewrite addNode_nodes.
      destruct (has_node (normalize u) g) eqn:Hhas.
      * destruct (find_node key (g_nodes g)) eqn:Hfind; [reflexivity |].
        destruct (String.eqb_spec (normalize u) key) as [Heq | Hne]; [| reflexivity].
        subst key. apply has_node_false in Hfind. congruence.
      * rewrite find_node_app.
        destruct (find_node key (g_nodes g)) eqn:Hfind; [reflexivity |]. simpl.
        destruct (String.eqb_spec key (normalize u)) as [-> | Hne].
        -- rewrite String.eqb_refl. reflexivity.
        -- destruct (String.eqb_spec (normalize u) key); [congruence | reflexivity].
    + rewrite addEdge_nodes. reflexivity.
    + rewrite addAlias_nodes. reflexivity.
Qed.

(** What holds of the nodes of a graph builder: one node per normalized
    URL, keyed by it. *)
Definition builder_ok (g : GraphStore) : Prop :=
  NoDup (node_keys g)
  /\ forall k nd, (k, nd) ∈ g_nodes g -> k = normalize (nd_url nd).

Lemma empty_graph_ok : builder_ok empty_graph.
Proof.
  split; [apply NoDup_nil_2 |]. intros k nd H. apply elem_of_nil in H. contradiction.
Qed.

Lemma call_ok c g : builder_ok g -> builder_ok (call c g).
Proof.
  intros [Hnd Hkeys]. destruct c as [u d t | s t | a u]; simpl.
  - unfold builder_ok, node_keys. rewrite addNode_nodes.
    destruct (has_node (normalize u) g) eqn:Hhas; [split; assumption |].
    unfold has_node, node_keys in Hhas. apply bool_decide_eq_false in Hhas.
    split.
    + rewrite fmap_app. apply NoDup_app. split; [exact Hnd |]. split.
      * intros x Hx Hx'. simpl in Hx'. apply list_elem_of_singleton in Hx'. subst x.
        contradiction.
      * simpl. apply NoDup_singleton.
    + intros k nd Hin. apply elem_of_app in Hin as [Hin | Hin]; [apply Hkeys, Hin |].
      apply list_elem_of_singleton in Hin. injection Hin as -> ->. reflexivity.
  - unfold builder_ok, node_keys. rewrite addEdge_nodes. split; assumption.
  - unfold builder_ok, node_keys. rewrite addAlias_nodes. split; assumption.
Qed.

Lemma build_ok cs g : builder_ok g -> builder_ok (build cs g).
Proof.
  revert g. induction cs as [| c cs IH]; intros g Hg; simpl; [exact Hg |].
  apply IH, call_ok, Hg.
Qed.

(** *** The job *)

(** Every step of a job changes the graph by calls of the graph builder
    only. *)
Lemma step_calls j j' : step j j' -> exists cs, j_graph j' = build cs (j_graph j).
Proof.
  intros Hstep. destruct Hstep.
  - exists []. unfold CrawlEngine.start. destruct (parseable (j_root j)); reflexivity.
  - exists []. unfold dispatch in H1.
    destruct (queue (j_frontier j)) as [| [u d] rest]; [discriminate |].
    injection H1 as <-. reflexivity.
  - unfold CrawlEngine.settle. destruct r as [| finalURL title links]; [destruct d |].
    + exists []. reflexivity.
    + exists [AddNode u (S d) None]. reflexivity.
    + exists [AddNode finalURL d title; AddAlias u finalURL]. reflexivity.
  - unfold CrawlEngine.feed. destruct (in_scope (normalize l)).
    + destruct (enqueue (j_max_depth j) (j_max_pages j) l (S d) (j_frontier j)) as [v f'].
      destruct v; first [exists [AddEdge u l]; reflexivity | exists []; reflexivity].
    + exists [AddNode l (external_depth d) None; AddEdge u l]. reflexivity.
  - exists []. reflexivity.
  - exists []. reflexivity.
  - exists []. unfold timeout. destruct (g_nodes (j_graph j)); reflexivity.
Qed.

Lemma reachable_calls root md mp pool j :
  reachable root md mp pool j -> exists cs, j_graph j = build cs empty_graph.
Proof.
  intros Hreach.
  apply (rtc_ind_r (fun j => exists cs, j_graph j = build cs empty_graph)
           (new_job root md mp pool)) with (3 := Hreach).
  - exists []. reflexivity.
  - intros y z _ Hstep [cs Hcs]. destruct (step_calls y z Hstep) as [cs' Hcs'].
    exists (cs ++ cs'). rewrite build_app, <- Hcs. exact Hcs'.
Qed.

Lemma step_keeps_node j j' key nd :
  step j j' ->
  find_node key (g_nodes (j_graph j)) = Some nd ->
  find_node key (g_nodes (j_graph j')) = Some nd.
Proof.
  intros Hstep Hfind. destruct (step_calls j j' Hstep) as [cs ->].
  apply build_keeps_node, Hfind.
Qed.

(** A schedule only takes steps of the job. *)
Lemma advance_steps web i j : j_status j = crawling -> rtc step j (advance web i j).
Proof.
  intros Hst. unfold CrawlEngine.advance.
  destruct (j_workers j !! i) as [w |] eqn:Hw; [| apply rtc_refl].
  apply take_drop_middle in Hw. symmetry in Hw.
  destruct w as [u d | u d [| l ls]].
  - apply rtc_once. exact (step_settle _ _ _ _ j _ _ u d (web u) Hst Hw).
  - apply rtc_once. exact (step_idle _ _ _ _ j _ _ u d Hst Hw).
  - apply rtc_once. exact (step_feed _ _ _ _ j _ _ u d l ls Hst Hw).
Qed.

Lemma make_steps web m j : rtc step j (make web m j).
Proof.
  unfold CrawlEngine.make.
  destruct m as [| | i | |]; destruct (j_status j) eqn:Hst; try apply rtc_refl.
  - apply rtc_once, step_start, Hst.
  - destruct (length (j_workers j) <? j_pool j) eqn:Hpool; [| apply rtc_refl].
    destruct (dispatch j) as [j' |] eqn:Hd; [| apply rtc_refl].
    apply rtc_once, step_dispatch; [exact Hst | apply Nat.ltb_lt, Hpool | exact Hd].
  - apply advance_steps, Hst.
  - destruct (queue (j_frontier j)) eqn:Hq; [| apply rtc_refl].
    destruct (j_workers j) eqn:Hws; [| apply rtc_refl].
    apply rtc_once, step_complete; assumption.
  - apply rtc_once, step_timeout, Hst.
Qed.

Lemma play_steps web ms j : rtc step j (play web ms j).
Proof.
  revert j. induction ms as [| m ms IH]; intros j; simpl; [apply rtc_refl |].
  etransitivity; [apply make_steps | apply IH].
Qed.

(** *** The assembled result *)

Lemma assemble_nodes elapsed j :
  nodes (assemble elapsed j) =
  match j_status j with
  | failed => []
  | _ => List.map (assemble_node node_id (j_graph j)) (g_nodes (j_graph j))
  end.
Proof. unfold CrawlEngine.assemble. destruct (j_status j); reflexivity. Qed.

Lemma assembled_urls g (ns : list (string * NodeData)) :
  (forall k nd, (k, nd) ∈ ns -> k = normalize (nd_url nd)) ->
  List.map (fun n => normalize (node_url n)) (List.map (assemble_node node_id g) ns)
  = ns.*1.
Proof.
  induction ns as [| [k nd] ns IH]; intros Hkeys; [reflexivity |].
  simpl. rewrite IH by (intros k' nd' Hin; apply Hkeys, list_elem_of_further, Hin).
  rewrite <- (Hkeys k nd (list_elem_of_here _ _)). reflexivity.
Qed.

(** *** One node per normalized URL *)


End Invariants.

(** A URL found first at depth 3 and then again at depth 2 keeps depth 3:
    the first discovery wins. *)
Example first_discovery_wins :
  find_node "https://site.test/x"
    (g_nodes (build (fun u => u)
                [AddNode "https://site.test/x" 3 None;
                 AddEdge "https://site.test/" "https://site.test/x";
                 AddNode "https://site.test/x" 2 (Some "X"%string)]
                empty_graph))
  = Some {| nd_url := "https://site.test/x"; nd_title := None; nd_depth := 3 |}.
Proof. reflexivity. Qed.

(** *** A small site *)

Definition site_scope (key : string) : bool := String.prefix "https://site.test/" key.

(** Five pages of site.test: the home page links to a and b, a to c, and
    both b and c link to x, which is two links away from the home page. *)
Definition site (u : string) : fetched :=
  if String.eqb u "https://site.test/" then
    Page u (Some "Home"%string) ["https://site.test/a"; "https://site.test/b"]%string
  else if String.eqb u "https://site.test/a" then
    Page u (Some "A"%string) ["https://site.test/c"]%string
  else if String.eqb u "https://site.test/b" then
    Page u (Some "B"%string) ["https://site.test/x"]%string
  else if String.eqb u "https://site.test/c" then
    Page u (Some "C"%string) ["https://site.test/x"]%string
  else if String.eqb u "https://site.test/x" then
    Page u (Some "X"%string) []
  else FetchFailed.

(** Two workers, of which the one that fetches b is slow: a is fetched
    and expanded, and then c, before the fetch of b settles. *)
Definition slow_b : list move :=
  [Start; Dispatch; Advance 0; Advance 0; Advance 0; Advance 0;
   Dispatch; Dispatch;
   Advance 0; Advance 1; Advance 1;
   Dispatch; Advance 1; Advance 1; Advance 1;
   Advance 0; Advance 0; Advance 0;
   Dispatch; Advance 0; Advance 0;
   Complete].

Definition site_job : Job :=
  play (fun u => u) site_scope (fun _ => true) S site slow_b
    (new_job "https://site.test/" 3 10 2).

Definition site_result : SitemapResult := assemble (fun key => key) 1 site_job.



End CrawlEngineFacts.

(** * Further properties of the client code *)

(** ** Using up credits *)

Module TokenStoreUse.
Import TokenStore.

(** A token with another count. *)
Definition with_remaining (tok : TokenInfo) (r : Z) : TokenInfo :=
  {| token_value := token_value tok; remaining_generations := r;
     total_generations := total_generations tok; expires_at := expires_at tok;
     product_sku := product_sku tok |}.

(** The count left of [c] after [n] calls of decrementCredits. *)
Definition left_after (n : nat) (c : Z) : Z := Z.max (Z.min c 0) (c - Z.of_nat n).

Lemma decrementCredits_token (s : TokenState) :
  token (decrementCredits s) =
  match token s with
  | Some tok => Some (with_remaining tok (left_after 1 (remaining_generations tok)))
  | None => None
  end.
Proof.
  unfold decrementCredits, left_after.
  destruct (token s) as [tok |] eqn:Htok; [| exact Htok].
  destruct (remaining_generations tok >? 0)%Z eqn:Hpos; simpl.
  - rewrite Z.gtb_ltb in Hpos. apply Z.ltb_lt in Hpos.
    unfold with_remaining. do 2 f_equal. lia.
  - rewrite Htok. rewrite Z.gtb_ltb in Hpos. apply Z.ltb_ge in Hpos.
    destruct tok as [v c tot e sku]. unfold with_remaining. simpl in *.
    do 2 f_equal. lia.
Qed.

(** On whole-number counts, the token left by [n] calls of
    decrementCredits. *)
Lemma repeated_decrement_saturates (n : nat) (s : TokenState) :
  token (Nat.iter n decrementCredits s) =
  match token s with
  | Some tok => Some (with_remaining tok (left_after n (remaining_generations tok)))
  | None => None
  end.
Proof.
  induction n as [| n IH].
  - simpl. destruct (token s) as [[v c tot e sku] |]; [| reflexivity].
    unfold with_remaining, left_after. simpl. do 2 f_equal. lia.
  - rewrite Nat.iter_succ, decrementCredits_token, IH.
    destruct (token s) as [tok |]; [| reflexivity].
    unfold with_remaining, left_after. simpl. do 2 f_equal. lia.
Qed.


(** X3. hasCredits can only turn false as time passes: a store that has
    credits at some time had them at every earlier time. *)
Theorem hasCredits_earlier (Date_parse : string -> option Z) (now later : Z)
  (s : TokenState) :
  (now <= later)%Z ->
  hasCredits Date_parse later s = true ->
  hasCredits Date_parse now s = true.
Proof.
  intros Hle. unfold hasCredits, expired.
  destruct (token s) as [tok |]; [| trivial].
  destruct (Date_parse (expires_at tok)) as [at_ms |]; [| trivial].
  destruct (at_ms <? later)%Z eqn:Hlater; [discriminate |].
  apply Z.ltb_ge in Hlater.
  destruct (at_ms <? now)%Z eqn:Hnow; [| trivial].
  apply Z.ltb_lt in Hnow. lia.
Qed.

(** A clock that reads the expiry time off a table of one entry. *)
Definition clock_2030 (s : string) : option Z :=
  if String.eqb s "2030-01-01T00:00:00Z" then Some 1893456000000%Z else None.

Lemma hasCredits_earlier_witness :
  hasCredits clock_2030 1700000000000 {| token := Some TokenStoreFacts.two_scans |} = true.
Proof.
  apply (hasCredits_earlier clock_2030 1700000000000 1800000000000
           {| token := Some TokenStoreFacts.two_scans |}).
  - vm_compute. discriminate.
  - reflexivity.
Defined.

End TokenStoreUse.

(** ** The device id and localStorage *)

Module FingerprintStorage.
Import Fingerprint.

(** X4. A fallback id is kept in localStorage: when a call without a
    cached id falls back (fingerprinting fails), a later session with the
    same localStorage and an empty cache, in which fingerprinting fails
    again, returns that same id. *)
Theorem fallback_id_survives_reload (w w' : World) (s : Session) :
  truthy (cachedDeviceId s) = false ->
  visitorId w = None ->
  visitorId w' = None ->
  fst (getDeviceId w' (fresh (localStorage (snd (getDeviceId w s)))))
  = fst (getDeviceId w s).
Proof.
  intros Hcache Hw Hw'. unfold getDeviceId at 2 3. rewrite Hcache, Hw.
  destruct (truthy (localStorage s !! "device_id")) eqn:Hstored; simpl.
  - unfold getDeviceId. simpl. rewrite Hw', Hstored. reflexivity.
  - unfold getDeviceId. simpl. rewrite Hw', lookup_insert_eq. reflexivity.
Qed.

Lemma fallback_id_survives_reload_witness :
  fst (getDeviceId {| visitorId := None; random_digits := "zzzzzz" |}
         (fresh (localStorage
                   (snd (getDeviceId {| visitorId := None; random_digits := "k3j2h1" |}
                           (fresh ∅))))))
  = "fallback_k3j2h1".
Proof.
  etransitivity.
  - apply (fallback_id_survives_reload
             {| visitorId := None; random_digits := "k3j2h1" |}
             {| visitorId := None; random_digits := "zzzzzz" |} (fresh ∅));
      reflexivity.
  - reflexivity.
Defined.

(** X5. getDeviceId writes to localStorage only to store a fresh
    fallback id under device_id: every other key is left alone, a truthy
    stored device_id is never replaced, and a call that finds a cached id
    or gets a fingerprint leaves localStorage untouched. *)
Theorem getDeviceId_storage_frame (w : World) (s : Session) :
  (forall key, key <> "device_id" ->
     localStorage (snd (getDeviceId w s)) !! key = localStorage s !! key)
  /\ (truthy (localStorage s !! "device_id") = true ->
      localStorage (snd (getDeviceId w s)) = localStorage s)
  /\ (truthy (cachedDeviceId s) = true \/ visitorId w <> None ->
      localStorage (snd (getDeviceId w s)) = localStorage s)
  /\ (localStorage (snd (getDeviceId w s)) <> localStorage s ->
      localStorage (snd (getDeviceId w s)) !! "device_id"
      = Some (fst (getDeviceId w s))).
Proof.
  unfold getDeviceId.
  destruct (truthy (cachedDeviceId s)) eqn:Hcache; simpl.
  { repeat split; try reflexivity. intros H. contradiction. }
  destruct (visitorId w) as [v |] eqn:Hv; simpl.
  { repeat split; try reflexivity. intros H. contradiction. }
  destruct (truthy (localStorage s !! "device_id")) eqn:Hstored; simpl.
  { repeat split; try reflexivity. intros H. contradiction. }
  split; [| split; [| split]].
  - intros key Hkey. apply lookup_insert_ne. congruence.
  - discriminate.
  - intros [H | H]; [discriminate | contradiction].
  - intros _. apply lookup_insert_eq.
Qed.

Lemma getDeviceId_storage_frame_witness :
  localStorage (snd (getDeviceId {| visitorId := None; random_digits := "zzzzzz" |}
                       (fresh {["device_id" := "fallback_k3j2h1"]})))
  = {["device_id" := "fallback_k3j2h1"]}.
Proof.
  destruct (getDeviceId_storage_frame {| visitorId := None; random_digits := "zzzzzz" |}
              (fresh {["device_id" := "fallback_k3j2h1"]})) as (_ & H & _).
  apply H. reflexivity.
Defined.

End FingerprintStorage.

(** ** What a scan leaves on the page *)

Module ScanPage.

(** X6. A scan of a parseable input ends with the loading flag off and
    no node selected, keeps the input, the depth and the page limit, and
    leaves exactly one of a result and an error: a result and no error
    when the crawl returned, an error and no result when it raised. *)
Theorem handleScan_outcome (api : option string) (URL_parse : string -> option string)
  (t : string -> string) (net : network) (st : AppState) (href : string) :
  URL_parse (scan_candidate (st_url st)) = Some href ->
  exists st',
    fst (run net (handleScan api URL_parse t st)) = Returned st'
    /\ st_loading st' = false
    /\ st_selectedNode st' = None
    /\ st_url st' = st_url st
    /\ st_depth st' = st_depth st
    /\ st_maxPages st' = st_maxPages st
    /\ ((exists data,
           fst (run net (crawlSitemap api (scan_request href st))) = Returned data
           /\ st_result st' = Some data /\ st_error st' = None)
        \/ (exists e message,
              fst (run net (crawlSitemap api (scan_request href st))) = Raised e
              /\ st_result st' = None /\ st_error st' = Some message)).
Proof.
  intros Hparse. rewrite run_handleScan, Hparse, run_crawlSitemap. simpl.
  destruct (crawl_outcome _) as [data | e]; eexists;
    (split; [reflexivity |]); simpl; repeat (split; [reflexivity |]).
  - left. exists data. repeat split.
  - right. eexists e, _. repeat split.
Qed.

Lemma handleScan_outcome_witness :
  exists st',
    fst (run (fun _ _ => FetchResponse completed_response)
           (handleScan None URL_examples (fun key => key) typed_state)) = Returned st'
    /\ st_loading st' = false
    /\ st_result st' = Some (SitemapResult_json completed_result)
    /\ st_error st' = None.
Proof.
  destruct (handleScan_outcome None URL_examples (fun key => key)
              (fun _ _ => FetchResponse completed_response) typed_state
              "https://example.com/" eq_refl)
    as (st' & Hrun & Hloading & _ & _ & _ & _ & Hcase).
  exists st'. split; [exact Hrun |]. split; [exact Hloading |].
  destruct Hcase as [(data & Hdata & Hres & Herr) | (e & m & He & _)].
  - injection Hdata as <-. split; assumption.
  - discriminate He.
Defined.

(** The error shown after a scan whose crawl raised [e]. *)
Definition banner (t : string -> string) (e : thrown) : string :=
  match e with
  | ErrorObj _ message => message
  | NonError _ => t "error.crawlFailed"
  end.

(** X7. The error banner after a failed scan of a parseable input: the
    server's detail when a response that is not OK carries a non-empty
    string detail; "Unknown error" when its body cannot be parsed; the
    message of the thrown Error when the fetch is rejected with one (a
    network failure); the translated generic text when something that is
    not an Error was thrown. In each case no result is shown. *)
Theorem scan_error_banner (api : option string) (URL_parse : string -> option string)
  (t : string -> string) (net : network) (st st' : AppState) (href : string)
  (trace : list (string * RequestInit)) :
  URL_parse (scan_candidate (st_url st)) = Some href ->
  run net (handleScan api URL_parse t st) = (Returned st', trace) ->
  let settled := net (crawl_endpoint api) (crawl_init (scan_request href st)) in
  (forall response body d,
      settled = FetchResponse response -> ok response = false ->
      json_body response = inr body -> field "detail" body = Some (JStr d) -> d <> "" ->
      st_error st' = Some d /\ st_result st' = None)
  /\ (forall response reason,
        settled = FetchResponse response -> ok response = false ->
        json_body response = inl reason ->
        st_error st' = Some "Unknown error" /\ st_result st' = None)
  /\ (forall reason,
        settled = FetchRejected reason ->
        st_error st' = Some (banner t reason) /\ st_result st' = None).
Proof.
  intros Hparse Hrun settled.
  rewrite run_handleScan, Hparse in Hrun. simpl in Hrun. fold settled in Hrun.
  injection Hrun as <- _.
  split; [| split].
  - intros response body d Hs Hok Hbody Hd Hne. rewrite Hs. simpl. rewrite Hok, Hbody.
    assert (Hb : body <> JNull) by (intros ->; discriminate).
    unfold failure_of. rewrite (get_property_field _ _ Hb), Hd. simpl.
    destruct (String.eqb_spec d ""); [contradiction |]. split; reflexivity.
  - intros response reason Hs Hok Hbody. rewrite Hs. simpl. rewrite Hok, Hbody.
    split; reflexivity.
  - intros reason Hs. rewrite Hs. simpl. split; reflexivity.
Qed.

Lemma scan_error_banner_witness :
  st_error (setLoading false
              (setError (Some "Invalid URL")
                 (setSelectedNode None
                    (setResult None (setError None (setLoading true typed_state))))))
  = Some "Invalid URL".
Proof.
  pose proof (scan_error_banner None URL_examples (fun key => key)
                (fun _ _ => FetchResponse invalid_url_response) typed_state
                (setLoading false
                   (setError (Some "Invalid URL")
                      (setSelectedNode None
                         (setResult None (setError None (setLoading true typed_state))))))
                "https://example.com/"
                [(crawl_endpoint None,
                  crawl_init (scan_request "https://example.com/" typed_state))]
                eq_refl eq_refl) as (H & _).
  apply (H invalid_url_response (JObj [("detail", JStr "Invalid URL")]) "Invalid URL"
           eq_refl eq_refl eq_refl eq_refl).
  discriminate.
Defined.

Lemma user_step_idle api URL_parse t st st' :
  user_step api URL_parse t st st' -> st_loading st = false -> st_loading st' = false.
Proof.
  intros Hstep Hidle.
  destruct Hstep as [v st | i st | i st | net st st' trace Hrun | n st | st];
    simpl; try exact Hidle.
  - unfold onDepthChange. destruct (depth_options !! i); exact Hidle.
  - unfold onMaxPagesChange. destruct (maxPages_options !! i); exact Hidle.
  - rewrite run_handleScan in Hrun.
    destruct (URL_parse (scan_candidate (st_url st))); injection Hrun as <- _;
      [reflexivity | exact Hidle].
Qed.

(** X8. Whatever the user did before, New Scan brings the page back to
    its first render, except that the chosen depth and page limit stay. *)
Theorem reset_restores_first_render (api : option string)
  (URL_parse : string -> option string) (t : string -> string) (st : AppState) :
  rtc (user_step api URL_parse t) initial_state st ->
  handleReset st = setMaxPages (st_maxPages st) (setDepth (st_depth st) initial_state).
Proof.
  intros Hreach.
  assert (Hidle : st_loading st = false).
  { apply (rtc_ind_r (fun s => st_loading s = false) initial_state) with (3 := Hreach).
    - reflexivity.
    - intros y z _ Hstep Hy. eapply user_step_idle; eauto. }
  destruct st as [u d p l e r n]. simpl in Hidle. subst l. reflexivity.
Qed.

Lemma reset_restores_first_render_witness :
  handleReset typed_state = setDepth 2 initial_state.
Proof.
  etransitivity.
  - apply (reset_restores_first_render None URL_examples (fun key => key) typed_state).
    eapply rtc_l; [apply (type_url _ _ _ "example.com") |].
    apply rtc_once. apply (choose_depth _ _ _ 1).
  - reflexivity.
Defined.

End ScanPage.

(** ** Circles, clicks, labels and links of the graph *)

Module GraphViewFacts.
Import Graph GraphView.

(** X9. The radius of a node's circle lies between 6 and 15, never
    shrinks when the node has more outgoing links, and is 5 plus the
    number of outgoing links between 1 and 10 of them. *)
Theorem node_radius_bounds (d d' : PageNode) :
  (6 <= node_radius d <= 15)%Z
  /\ ((outgoing_links d <= outgoing_links d')%Z -> (node_radius d <= node_radius d')%Z)
  /\ ((1 <= outgoing_links d <= 10)%Z -> node_radius d = (5 + outgoing_links d)%Z).
Proof. unfold node_radius. lia. Qed.

Lemma node_radius_bounds_witness : node_radius GraphFacts.home = 7%Z.
Proof.
  destruct (node_radius_bounds GraphFacts.home GraphFacts.home) as (_ & _ & H).
  apply H. vm_compute. split; discriminate.
Defined.

Lemma find_first_id (nodes : list PageNode) (d : PageNode) :
  In d nodes ->
  exists before n after,
    nodes = (before ++ n :: after)%list
    /\ List.find (fun n => String.eqb (id n) (id d)) nodes = Some n
    /\ id n = id d
    /\ ~ In (id d) (List.map id before).
Proof.
  induction nodes as [| x nodes IH]; intros Hin; [destruct Hin |].
  simpl. destruct (String.eqb_spec (id x) (id d)) as [Heq | Hne].
  - exists [], x, nodes. repeat split; [exact Heq | intros []].
  - destruct Hin as [-> | Hin]; [contradiction |].
    destruct (IH Hin) as (before & n & after & -> & Hfind & Hid & Hfirst).
    exists (x :: before), n, after. repeat split; try assumption.
    simpl. intros [H | H]; [contradiction | apply Hfirst, H].
Qed.

(** X10. A click on a circle always reaches the callback: it is given
    the first of the nodes with the circle's id, and when the ids of the
    nodes are distinct that is the circle's own node. *)
Theorem click_selects_node (nodes : list PageNode) (d : PageNode) :
  In d nodes ->
  exists before n after,
    clicked nodes true d = Some n
    /\ nodes = (before ++ n :: after)%list
    /\ id n = id d
    /\ ~ In (id d) (List.map id before)
    /\ (List.NoDup (List.map id nodes) -> n = d).
Proof.
  intros Hin. destruct (find_first_id nodes d Hin)
    as (before & n & after & Hnodes & Hfind & Hid & Hfirst).
  exists before, n, after. repeat split; try assumption.
  intros Hnd. subst nodes.
  apply List.in_app_or in Hin as [Hin | [Heq | Hin]].
  - exfalso. apply Hfirst, List.in_map, Hin.
  - exact Heq.
  - exfalso. rewrite List.map_app in Hnd. simpl in Hnd.
    apply List.NoDup_remove_2 in Hnd. apply Hnd.
    apply List.in_or_app. right. rewrite Hid. apply List.in_map, Hin.
Qed.

Lemma click_selects_node_witness :
  clicked [GraphFacts.home; GraphFacts.about; GraphFacts.contact] true GraphFacts.about
  = Some GraphFacts.about.
Proof.
  destruct (click_selects_node [GraphFacts.home; GraphFacts.about; GraphFacts.contact]
              GraphFacts.about) as (before & n & after & Hclick & _ & _ & _ & Hsame).
  - right. left. reflexivity.
  - rewrite Hclick. f_equal. apply Hsame.
    repeat constructor; simpl; intuition discriminate.
Defined.

Lemma length_slice0 (n : nat) (s : string) : (String.length (slice0 n s) <= n)%nat.
Proof.
  unfold slice0. revert s. induction n as [| n IH]; intros [| a s]; simpl; try lia.
  specialize (IH s). lia.
Qed.

Lemma slice0_short (n : nat) (s : string) :
  (String.length s <= n)%nat -> slice0 n s = s.
Proof.
  unfold slice0. revert s. induction n as [| n IH]; intros [| a s]; simpl;
    try reflexivity; try lia.
  intros H. rewrite IH by lia. reflexivity.
Qed.

Lemma length_append (s1 s2 : string) :
  String.length (s1 ++ s2) = (String.length s1 + String.length s2)%nat.
Proof. induction s1 as [| a s1 IH]; simpl; [| rewrite IH]; reflexivity. Qed.

(** X11. A node's label has at most 23 characters; it is the path of
    the node's URL when that path has 1 to 20 characters, its first 20
    characters followed by three dots when it is longer, a slash when the
    path is empty, and the first 20 characters of the URL when the URL
    cannot be parsed. *)
Theorem node_label_short (URL_pathname : string -> option string) (d : PageNode) :
  (String.length (node_label URL_pathname d) <= 23)%nat
  /\ (forall p, URL_pathname (node_url d) = Some p ->
        node_label URL_pathname d <> ""
        /\ ((1 <= String.length p <= 20)%nat -> node_label URL_pathname d = p)
        /\ ((20 < String.length p)%nat ->
            node_label URL_pathname d = slice0 20 p ++ "...")
        /\ (p = "" -> node_label URL_pathname d = "/"))
  /\ (URL_pathname (node_url d) = None ->
      node_label URL_pathname d = slice0 20 (node_url d)
      /\ ((String.length (node_url d) <= 20)%nat ->
          node_label URL_pathname d = node_url d)).
Proof.
  unfold node_label. destruct (URL_pathname (node_url d)) as [p |].
  - destruct (20 <? String.length p)%nat eqn:Hlong.
    + assert (Hcut : slice0 20 p ++ "..." <> "").
      { intros H. apply (f_equal String.length) in H.
        rewrite length_append in H. simpl in H. lia. }
      destruct (String.eqb_spec (slice0 20 p ++ "...") ""); [contradiction |].
      apply Nat.ltb_lt in Hlong.
      split; [| split; [| discriminate]].
      * rewrite length_append. pose proof (length_slice0 20 p). simpl. lia.
      * intros q [= <-]. split; [exact Hcut |]. split; [lia |].
        split; [reflexivity |]. intros ->. simpl in Hlong. lia.
    + apply Nat.ltb_ge in Hlong.
      destruct (String.eqb_spec p "") as [-> | Hne].
      * split; [simpl; lia |]. split; [| discriminate].
        intros q [= <-]. split; [discriminate |]. split; [simpl; lia |].
        split; [simpl; lia | reflexivity].
      * split; [lia |]. split; [| discriminate].
        intros q [= <-]. split; [exact Hne |]. split; [reflexivity |].
        split; [lia | contradiction].
  - split; [pose proof (length_slice0 20 (node_url d)); lia |].
    split; [discriminate |]. intros _. split; [reflexivity |].
    apply slice0_short.
Qed.

(** The path part of the URLs of the component's tests. *)
Definition pathname_examples (s : string) : option string :=
  if String.eqb s "https://example.com/about" then Some "/about"
  else if String.eqb s "https://example.com" then Some "/"
  else None.

Lemma node_label_short_witness :
  node_label pathname_examples GraphFacts.about = "/about".
Proof.
  destruct (node_label_short pathname_examples GraphFacts.about) as (_ & H & _).
  destruct (H "/about" eq_refl) as (_ & Hpath & _).
  apply Hpath. simpl. lia.
Defined.

Lemma filter_attached_subset (nodes nodes' : list PageNode) (links : list PageLink) :
  (forall k, In k (List.map id nodes) -> In k (List.map id nodes')) ->
  forall l, In l (List.filter (GraphFacts.attached nodes) links) ->
            In l (List.filter (GraphFacts.attached nodes') links).
Proof.
  intros Hsub l. rewrite !List.filter_In. unfold GraphFacts.attached.
  rewrite !andb_true_iff, !GraphFacts.known_In. intuition.
Qed.

(** X12. The links given to the simulation are never more than the
    links received; filtering them again changes nothing; they depend only
    on which ids the nodes have (not on their order or repetition); and
    with more nodes no displayed link is lost. *)
Theorem d3Links_stable (nodes nodes' : list PageNode) (links : list PageLink) :
  (length (d3Links nodes links) <= length links)%nat
  /\ d3Links nodes (d3Links nodes links) = d3Links nodes links
  /\ ((forall k, In k (List.map id nodes) <-> In k (List.map id nodes')) ->
      d3Links nodes links = d3Links nodes' links)
  /\ ((forall k, In k (List.map id nodes) -> In k (List.map id nodes')) ->
      forall l, In l (d3Links nodes links) -> In l (d3Links nodes' links)).
Proof.
  split; [| split; [| split]]; rewrite !GraphFacts.d3Links_filter.
  - apply List.filter_length_le.
  - induction links as [| l links IH]; [reflexivity |].
    simpl. destruct (GraphFacts.attached nodes l) eqn:Hl; [| exact IH].
    simpl. rewrite Hl, IH. reflexivity.
  - intros Hsame. apply List.filter_ext. intros l.
    unfold GraphFacts.attached. apply eq_true_iff_eq.
    rewrite !andb_true_iff, !GraphFacts.known_In, !Hsame. reflexivity.
  - intros Hsub l. apply filter_attached_subset, Hsub.
Qed.

Lemma d3Links_stable_witness :
  d3Links [GraphFacts.home; GraphFacts.about]
    [ {| source := "abc"; target := "def" |}; {| source := "abc"; target := "ghi" |} ]
  = d3Links [GraphFacts.about; GraphFacts.home; GraphFacts.about]
      [ {| source := "abc"; target := "def" |}; {| source := "abc"; target := "ghi" |} ].
Proof.
  destruct (d3Links_stable [GraphFacts.home; GraphFacts.about]
              [GraphFacts.about; GraphFacts.home; GraphFacts.about]
              [ {| source := "abc"; target := "def" |};
                {| source := "abc"; target := "ghi" |} ]) as (_ & _ & H & _).
  apply H. intros k. simpl. tauto.
Defined.

End GraphViewFacts.

(** ** Payments *)

Module PaymentFacts.
Import Payment.

(** X13. A token lookup answers "no token" for a 404 and raises
    nothing, although such a response is not OK; for every other response
    that is not OK each payment function raises its own fixed message,
    whatever the body says (for createCheckout and useGeneration a 404 is
    such a failure too). *)
Theorem payment_failures :
  (forall net id response,
      net (API_BASE ++ "/tokens/by-device/" ++ id) None = HttpResponded response ->
      (http_status response = 404%Z -> fetchTokenByDevice net id = Returned None)
      /\ (http_status response <> 404%Z -> http_ok response = false ->
          fetchTokenByDevice net id = Raised (new_Error "Failed to fetch token")))
  /\ (forall net token response,
        net (API_BASE ++ "/tokens/validate/" ++ token) None = HttpResponded response ->
        (http_status response = 404%Z -> validateToken net token = Returned None)
        /\ (http_status response <> 404%Z -> http_ok response = false ->
            validateToken net token = Raised (new_Error "Failed to validate token")))
  /\ (forall net request response,
        net (API_BASE ++ "/payment/create-checkout")
            (Some {| method := "POST";
                     headers := [("Content-Type", "application/json")];
                     body := JSON_stringify (CheckoutRequest_json request) |})
        = HttpResponded response ->
        http_ok response = false ->
        createCheckout net request = Raised (new_Error "Failed to create checkout"))
  /\ (forall net token response,
        net (API_BASE ++ "/tokens/use/" ++ token)
            (Some {| method := "POST"; headers := []; body := "" |})
        = HttpResponded response ->
        http_ok response = false ->
        useGeneration net token = Raised (new_Error "Failed to use generation")).
Proof.
  split; [| split; [| split]].
  - intros net id response Hnet. unfold fetchTokenByDevice. rewrite Hnet. split.
    + intros ->. reflexivity.
    + intros Hs ->. apply Z.eqb_neq in Hs. rewrite Hs. reflexivity.
  - intros net token response Hnet. unfold validateToken. rewrite Hnet. split.
    + intros ->. reflexivity.
    + intros Hs ->. apply Z.eqb_neq in Hs. rewrite Hs. reflexivity.
  - intros net request response Hnet Hok. unfold createCheckout. rewrite Hnet, Hok.
    reflexivity.
  - intros net token response Hnet Hok. unfold useGeneration. rewrite Hnet, Hok.
    reflexivity.
Qed.

(** A device that has no token yet. *)
Definition no_token_yet : http_network (option TokenStore.TokenInfo) :=
  fun _ _ => HttpResponded {| http_status := 404; http_ok := false;
                              http_json := inr None |}.

Lemma payment_failures_witness :
  fetchTokenByDevice no_token_yet "fallback_k3j2h1" = Returned None.
Proof.
  destruct payment_failures as (H & _).
  destruct (H no_token_yet "fallback_k3j2h1"
              {| http_status := 404; http_ok := false; http_json := inr None |} eq_refl)
    as (H404 & _).
  apply H404. reflexivity.
Defined.

End PaymentFacts.

Module SuccessPageFacts.
Import SuccessPage.

(** X14. Fetching the token after a payment always ends the loading
    state and never takes credits away: a token that is stored stays
    stored unless the server sends another one; a 404 (no token yet)
    changes neither the store nor the error; and an error is shown only
    when the store is left as it was. The lookup is made for the id that
    getDeviceId returns, which stays cached in the session. *)
Theorem fetchToken_outcome (w : Fingerprint.World)
  (net : Payment.http_network (option TokenStore.TokenInfo)) (e : Env) :
  let id := fst (Fingerprint.getDeviceId w (session e)) in
  let e' := fetchToken w net e in
  loading (page e') = false
  /\ session e' = snd (Fingerprint.getDeviceId w (session e))
  /\ (TokenStore.token (store e) <> None -> TokenStore.token (store e') <> None)
  /\ (store e' = store e
      \/ exists tok, Payment.fetchTokenByDevice net id = Returned (Some tok)
                     /\ TokenStore.token (store e') = Some tok)
  /\ (forall response,
        net (Payment.API_BASE ++ "/tokens/by-device/" ++ id) None
        = Payment.HttpResponded response ->
        Payment.http_status response = 404%Z ->
        store e' = store e /\ error (page e') = error (page e))
  /\ (error (page e') <> error (page e) -> store e' = store e).
Proof.
  intros id e'. subst id e'. unfold fetchToken.
  destruct (Fingerprint.getDeviceId w (session e)) as [id session'] eqn:Hid. simpl.
  destruct (Payment.fetchTokenByDevice net id) as [[tok |] | reason] eqn:Hfetch; simpl;
    (split; [reflexivity |]); (split; [reflexivity |]).
  - split; [discriminate |]. split; [right; exists tok; split; reflexivity |].
    split.
    + intros response Hnet H404. exfalso.
      unfold Payment.fetchTokenByDevice in Hfetch. rewrite Hnet, H404 in Hfetch.
      discriminate.
    + intros Herr. contradiction.
  - split; [trivial |]. split; [left; reflexivity |]. split.
    + intros response Hnet H404. split; reflexivity.
    + reflexivity.
  - split; [trivial |]. split; [left; reflexivity |]. split.
    + intros response Hnet H404. exfalso.
      unfold Payment.fetchTokenByDevice in Hfetch. rewrite Hnet, H404 in Hfetch.
      discriminate.
    + reflexivity.
Qed.

(** The page on its first render, with two scans left in the store. *)
Definition returning_customer : Env :=
  {| page := first_render;
     store := {| TokenStore.token := Some TokenStoreFacts.two_scans |};
     session := Fingerprint.fresh ∅ |}.

Lemma fetchToken_outcome_witness :
  store (fetchToken {| Fingerprint.visitorId := Some "9f8e7d";
                       Fingerprint.random_digits := "k3j2h1" |}
           PaymentFacts.no_token_yet returning_customer)
  = store returning_customer
  /\ error (page (fetchToken {| Fingerprint.visitorId := Some "9f8e7d";
                                Fingerprint.random_digits := "k3j2h1" |}
                    PaymentFacts.no_token_yet returning_customer))
     = None.
Proof.
  destruct (fetchToken_outcome {| Fingerprint.visitorId := Some "9f8e7d";
                                  Fingerprint.random_digits := "k3j2h1" |}
              PaymentFacts.no_token_yet returning_customer) as (_ & _ & _ & _ & H & _).
  apply (H {| Payment.http_status := 404; Payment.http_ok := false;
              Payment.http_json := inr None |}); reflexivity.
Defined.

End SuccessPageFacts.

Module PricingFacts.
Import Pricing.

(** X15. A purchase always ends with the buy buttons enabled again
    (loading null), and it either navigates to the checkout URL the server
    returned, with no error shown, or shows the checkout error and
    navigates nowhere new; it navigates exactly when createCheckout
    returned. The request carries the chosen sku, the id that getDeviceId
    returns, and return addresses under the page's own origin. *)
Theorem handlePurchase_outcome (origin : string) (w : Fingerprint.World)
  (net : Payment.http_network Payment.CheckoutResponse) (sku : string)
  (s : Fingerprint.Session) (p : PageState) :
  let id := fst (Fingerprint.getDeviceId w s) in
  let request :=
    {| Payment.product_sku := sku; Payment.device_id := id;
       Payment.success_url := origin ++ "/payment/success";
       Payment.cancel_url := origin ++ "/pricing" |} in
  let p' := fst (handlePurchase origin w net sku s p) in
  loading p' = None
  /\ snd (handlePurchase origin w net sku s p) = snd (Fingerprint.getDeviceId w s)
  /\ ((exists response,
         Payment.createCheckout net request = Returned response
         /\ location_href p' = Some (Payment.checkout_url response)
         /\ error p' = None)
      \/ (exists reason,
            Payment.createCheckout net request = Raised reason
            /\ location_href p' = location_href p
            /\ error p' = Some "Failed to create checkout. Please try again.")).
Proof.
  intros id request p'. subst id request p'. unfold handlePurchase, purchase_request.
  destruct (Fingerprint.getDeviceId w s) as [id s'] eqn:Hid. simpl.
  destruct (Payment.createCheckout net _) as [response | reason] eqn:Hcheckout; simpl.
  - repeat split. left. exists response. repeat split.
  - repeat split. right. exists reason. repeat split.
Qed.

End PricingFacts.

(** ** The generated pages *)

Module GeneratorFacts.
Import Generator.

Local Open Scope list_scope.
Local Open Scope nat_scope.

(** The combination made of value [i] of one dimension and value [j] of
    another. *)
Definition combo_at (n1 n2 : string) (d1 d2 : Dimension) (i j : nat) (v1 v2 : string)
  : Combo :=
  {| dim1 := n1; dim2 := n2; val1 := v1; val2 := v2;
     val1Display := values_display_en d1 !! i;
     val2Display := values_display_en d2 !! j;
     slug := (v1 ++ "-" ++ v2)%string |}.

Lemma elem_of_pair_combos n1 n2 d1 d2 c :
  c ∈ pair_combos n1 n2 d1 d2 <->
  exists i j v1 v2,
    dim_values d1 !! i = Some v1 /\ dim_values d2 !! j = Some v2
    /\ c = combo_at n1 n2 d1 d2 i j v1 v2.
Proof.
  unfold pair_combos. rewrite list_elem_of_join. split.
  - intros (row & Hc & Hrow).
    apply elem_of_lookup_imap in Hrow as (i & v1 & -> & Hv1).
    apply elem_of_lookup_imap in Hc as (j & v2 & -> & Hv2).
    exists i, j, v1, v2. repeat split; assumption.
  - intros (i & j & v1 & v2 & Hv1 & Hv2 & ->).
    exists (imap (fun j v2 => combo_at n1 n2 d1 d2 i j v1 v2) (dim_values d2)). split.
    + apply (elem_of_lookup_imap_2 (fun j v2 => combo_at n1 n2 d1 d2 i j v1 v2)
               _ _ j Hv2).
    + apply (elem_of_lookup_imap_2
               (fun i v1 => imap (fun j v2 => combo_at n1 n2 d1 d2 i j v1 v2)
                              (dim_values d2)) _ _ i Hv1).
Qed.

(** X16. The combinations generated are exactly the pairs of a value
    of the first and a value of the second dimension, for every listed
    pair of dimension names that both name a dimension (the first with
    that name); each has the slug value1-value2 and the display names at
    the values' positions. A pair that names an unknown dimension gives
    none. *)
Theorem generateCombinations_complete (dims : Dimensions) (c : Combo) :
  c ∈ generateCombinations dims <->
  exists n1 n2 d1 d2 i j v1 v2,
    (n1, n2) ∈ combinations dims
    /\ find_dimension dims n1 = Some d1
    /\ find_dimension dims n2 = Some d2
    /\ dim_values d1 !! i = Some v1
    /\ dim_values d2 !! j = Some v2
    /\ c = combo_at n1 n2 d1 d2 i j v1 v2.
Proof.
  unfold generateCombinations. rewrite list_elem_of_join. split.
  - intros (row & Hc & Hrow).
    apply list_elem_of_In, List.in_map_iff in Hrow as ([n1 n2] & <- & Hpair).
    simpl in Hc.
    destruct (find_dimension dims n1) as [d1 |] eqn:H1;
      [| apply elem_of_nil in Hc; contradiction].
    destruct (find_dimension dims n2) as [d2 |] eqn:H2;
      [| apply elem_of_nil in Hc; contradiction].
    apply elem_of_pair_combos in Hc as (i & j & v1 & v2 & Hv1 & Hv2 & ->).
    exists n1, n2, d1, d2, i, j, v1, v2.
    repeat split; try assumption. apply list_elem_of_In, Hpair.
  - intros (n1 & n2 & d1 & d2 & i & j & v1 & v2 & Hpair & H1 & H2 & Hv1 & Hv2 & ->).
    exists (pair_combos n1 n2 d1 d2). split.
    + apply elem_of_pair_combos. exists i, j, v1, v2. repeat split; assumption.
    + apply list_elem_of_In, List.in_map_iff. exists (n1, n2). simpl.
      rewrite H1, H2. split; [reflexivity | apply list_elem_of_In, Hpair].
Qed.

Lemma length_rows {A B : Type} (g : nat -> A -> list B) (l : list A) (n : nat) :
  (forall i x, length (g i x) = n) -> length (mjoin (imap g l)) = length l * n.
Proof.
  revert g. induction l as [| x l IH]; intros g Hg; [reflexivity |].
  rewrite imap_cons. simpl. rewrite length_app, Hg, IH; [lia |].
  intros i y. apply Hg.
Qed.

Lemma length_pair_combos n1 n2 d1 d2 :
  length (pair_combos n1 n2 d1 d2) = length (dim_values d1) * length (dim_values d2).
Proof.
  unfold pair_combos. apply length_rows. intros i v1. apply length_imap.
Qed.

(** The number of pages a listed pair of dimension names gives. *)
Definition pair_count (dims : Dimensions) (names : string * string) : nat :=
  match find_dimension dims (fst names), find_dimension dims (snd names) with
  | Some d1, Some d2 => length (dim_values d1) * length (dim_values d2)
  | _, _ => 0
  end.

(** X17. The number of combinations is the sum, over the listed pairs
    of dimension names, of the product of the two dimensions' numbers of
    values, a pair with an unknown name counting for nothing. *)
Theorem generateCombinations_count (dims : Dimensions) :
  length (generateCombinations dims)
  = list_sum (List.map (pair_count dims) (combinations dims)).
Proof.
  unfold generateCombinations.
  induction (combinations dims) as [| names rest IH]; [reflexivity |].
  simpl. rewrite length_app, IH. f_equal. unfold pair_count.
  destruct (find_dimension dims (fst names)) as [d1 |]; [| reflexivity].
  destruct (find_dimension dims (snd names)) as [d2 |]; [| reflexivity].
  apply length_pair_combos.
Qed.

Section Files.

Variable path_join : string -> string -> string.
Variable OUTPUT_DIR : string.
Variable SITEMAP_PATH : string.
Variable generatePageHTML : Combo -> string.

Abbreviation page_path := (page_path path_join OUTPUT_DIR).
Abbreviation main := (main path_join OUTPUT_DIR SITEMAP_PATH generatePageHTML).

(** The last of the combinations written to a path. *)
Definition last_written (p : string) (combos : list Combo) : option Combo :=
  List.find (fun c => String.eqb (page_path c) p) (rev combos).

Lemma pages_lookup (combos : list Combo) (files : gmap string string) (p : string) :
  fold_left (fun fs combo => <[page_path combo := generatePageHTML combo]> fs)
    combos files !! p
  = match last_written p combos with
    | Some c => Some (generatePageHTML c)
    | None => files !! p
    end.
Proof.
  unfold last_written.
  induction combos as [| c combos IH] using rev_ind; [reflexivity |].
  rewrite List.fold_left_app, rev_app_distr. simpl.
  destruct (String.eqb_spec (page_path c) p) as [-> | Hne].
  - apply lookup_insert_eq.
  - rewrite lookup_insert_ne by exact Hne. exact IH.
Qed.

(** X18. After the generator has run, the sitemap file holds the
    sitemap of all combinations; any other path written for a page holds
    the page of the last combination with that path (two combinations with
    the same slug share one file, and the later one wins); and every other
    file is as it was. *)
Theorem main_files (dims : Dimensions) (today : string) (files : gmap string string) :
  main dims today files !! SITEMAP_PATH
  = Some (generateSitemap dims today (generateCombinations dims))
  /\ (forall p, p <> SITEMAP_PATH ->
        main dims today files !! p
        = match last_written p (generateCombinations dims) with
          | Some c => Some (generatePageHTML c)
          | None => files !! p
          end)
  /\ (forall c, c ∈ generateCombinations dims -> page_path c <> SITEMAP_PATH ->
        exists c', c' ∈ generateCombinations dims
                   /\ page_path c' = page_path c
                   /\ main dims today files !! page_path c = Some (generatePageHTML c')).
Proof.
  assert (Hother : forall p, p <> SITEMAP_PATH ->
            main dims today files !! p
            = match last_written p (generateCombinations dims) with
              | Some c => Some (generatePageHTML c)
              | None => files !! p
              end).
  { intros p Hp. unfold Generator.main. cbv zeta.
    rewrite lookup_insert_ne by congruence. apply pages_lookup. }
  split; [| split; [exact Hother |]].
  - unfold Generator.main. cbv zeta. apply lookup_insert_eq.
  - intros c Hc Hp. rewrite (Hother _ Hp). unfold last_written.
    destruct (List.find (fun c' => String.eqb (page_path c') (page_path c))
                (rev (generateCombinations dims))) as [c' |] eqn:Hfind.
    + apply List.find_some in Hfind as [Hin Heq].
      exists c'. split; [| split; [apply String.eqb_eq, Heq | reflexivity]].
      rewrite list_elem_of_In, List.in_rev. exact Hin.
    + exfalso.
      assert (Hin : In c (rev (generateCombinations dims)))
        by (rewrite <- List.in_rev, <- list_elem_of_In; exact Hc).
      pose proof (List.find_none _ _ Hfind c Hin) as Hf. simpl in Hf.
      rewrite String.eqb_refl in Hf. discriminate.
Qed.

End Files.

Lemma append_assoc (a b c : string) : ((a ++ b) ++ c = a ++ (b ++ c))%string.
Proof.
  induction a as [| x a IH]; [reflexivity |].
  change (String x ((a ++ b) ++ c) = String x (a ++ (b ++ c)))%string.
  f_equal. exact IH.
Qed.

Lemma append_empty (s : string) : (s ++ "" = s)%string.
Proof.
  induction s as [| x s IH]; [reflexivity |].
  change (String x (s ++ "") = String x s)%string. f_equal. exact IH.
Qed.

Lemma sitemap_body (baseUrl today : string) (combos : list Combo) (start : string) :
  (forall c, In c combos ->
     exists pre post,
       fold_left (fun xml combo => xml ++ sitemap_entry baseUrl today combo)%string
         combos start
       = (pre ++ sitemap_entry baseUrl today c ++ post)%string)
  /\ exists rest,
       fold_left (fun xml combo => xml ++ sitemap_entry baseUrl today combo)%string
         combos start
       = (start ++ rest)%string.
Proof.
  revert start. induction combos as [| c0 combos IH]; intros start.
  - split; [intros c [] |]. exists ""%string. simpl. symmetry. apply append_empty.
  - simpl. destruct (IH (start ++ sitemap_entry baseUrl today c0)%string) as [Hall Hstart].
    split.
    + intros c [<- | Hin]; [| apply Hall, Hin].
      destruct Hstart as (rest & ->). exists start, rest. apply append_assoc.
    + destruct Hstart as (rest & ->). eexists. apply append_assoc.
Qed.

(** X19. The sitemap starts with the XML header and the opening urlset
    tag, ends with the closing tag, and holds, for every combination
    given, the url element of that combination's page, with the location
    baseUrl/p/slug. *)
Theorem sitemap_lists_every_page (dims : Dimensions) (today : string)
  (combos : list Combo) :
  (exists rest,
      generateSitemap dims today combos = (sitemap_header ++ rest ++ "</urlset>")%string)
  /\ forall c, In c combos ->
       exists pre post,
         generateSitemap dims today combos
         = (pre ++ "<loc>" ++ base_url dims ++ "/p/" ++ slug c ++ "</loc>" ++ post)%string.
Proof.
  unfold generateSitemap.
  destruct (sitemap_body (base_url dims) today combos sitemap_header) as [Hall Hstart].
  split.
  - destruct Hstart as (rest & ->). exists rest. apply append_assoc.
  - intros c Hc. destruct (Hall c Hc) as (pre & post & ->).
    exists (pre ++ "  <url>" ++ newline ++ "    ")%string.
    eexists. unfold sitemap_entry.
    repeat rewrite append_assoc. simpl. reflexivity.
Qed.

(** Two dimensions of two values each, listed once as a pair, and a
    pair that names a dimension that does not exist. *)
Definition sample_dimensions : Dimensions :=
  {| base_url := "https://sitemap.demo.densematrix.ai";
     dimensions :=
       [ {| dim_name := "industry"; dim_values := ["ecommerce"; "blog"]%string;
            values_display_en := ["E-commerce"; "Blog"]%string |};
         {| dim_name := "task"; dim_values := ["seo-audit"; "migration"]%string;
            values_display_en := ["SEO Audit"]%string |} ];
     combinations := [("industry", "task"); ("industry", "platform")]%string |}.

Lemma generateCombinations_complete_witness :
  {| dim1 := "industry"; dim2 := "task"; val1 := "blog"; val2 := "migration";
     val1Display := Some "Blog"%string; val2Display := None;
     slug := "blog-migration" |} ∈ generateCombinations sample_dimensions.
Proof.
  apply (generateCombinations_complete sample_dimensions).
  eexists "industry"%string, "task"%string, _, _, 1, 1, "blog"%string, "migration"%string.
  repeat split; first [reflexivity | apply list_elem_of_here].
Defined.

Lemma sitemap_lists_every_page_witness :
  exists pre post,
    generateSitemap sample_dimensions "2026-01-15" (generateCombinations sample_dimensions)
    = (pre ++ "<loc>https://sitemap.demo.densematrix.ai/p/blog-migration</loc>"
       ++ post)%string.
Proof.
  destruct (sitemap_lists_every_page sample_dimensions "2026-01-15"
              (generateCombinations sample_dimensions)) as (_ & H).
  destruct (H {| dim1 := "industry"; dim2 := "task"; val1 := "blog"; val2 := "migration";
                 val1Display := Some "Blog"%string; val2Display := None;
                 slug := "blog-migration" |}) as (pre & post & Heq).
  - right; right; right; left. reflexivity.
  - exists pre, post. exact Heq.
Defined.

(** The files written for the sample, on an empty disk. *)
Definition sample_page (c : Combo) : string := ("<title>" ++ slug c ++ "</title>")%string.

Definition sample_join (dir name : string) : string := (dir ++ "/" ++ name)%string.

Lemma main_files_witness :
  main sample_join "public/p" "public/sitemap-programmatic.xml" sample_page
    sample_dimensions "2026-01-15" ∅ !! "public/p/blog-migration.html"
  = Some "<title>blog-migration</title>"%string.
Proof.
  destruct (main_files sample_join "public/p" "public/sitemap-programmatic.xml"
              sample_page sample_dimensions "2026-01-15" ∅) as (_ & H & _).
  rewrite H by discriminate. reflexivity.
Defined.

End GeneratorFacts.
